(** * Postgres Chat Memory node: the tool-aware memory adapter

    A shallow embedding of
    [packages/@n8n/nodes-langchain/nodes/memory/MemoryPostgresChat/MemoryPostgresChat.node.ts]:
    the class [PostgresToolAwareMemory] (constructor, [loadMemoryVariables],
    [saveContext], [clear]) and the variant selection of
    [MemoryPostgresChat.supplyData].

    JavaScript values are an inductive type, the chat-history store is a
    finite map from sessions to message logs, and asynchronous code is a
    state-and-exception monad over that store. *)

From Stdlib Require Import ZArith QArith Bool Ascii String List Lia.
From Stdlib Require Import Floats.PrimFloat.
From stdpp Require Import base option list gmap strings fin_maps.

Local Open Scope Z_scope.

(** ** JavaScript values *)

Module Js.

(** The classes of [@langchain/core/messages] this file distinguishes.  Every
    one of them extends [BaseMessage]; only [AI] is [AIMessage]. *)
Inductive MessageClass : Type :=
| Human
| AI
| Tool
| System
| Other (name : string).

#[warnings="-register-all"]
(** A value of type [any].  A number is a binary64 float.  [Circular] is an
    object or array, not a message instance, whose properties lead back to
    itself.  An object is kept as its own enumerable properties.  An instance
    of a message class is kept as its class and the argument its constructor
    was given (a string, or an object of fields such as [content] and
    [tool_calls]). *)
Inductive Value : Type :=
| Undefined
| Null
| Boolean (b : bool)
| Num (n : float)
| BigInt (z : Z)
| Str (s : string)
| Symbol
| Function (name : string)
| Array (elems : list Value)
| Object (props : list (string * Value))
| Circular
| Instance (m : BaseMessage)
with BaseMessage : Type :=
| New (cls : MessageClass) (arg : Value).

(** The instances [new HumanMessage(v)], [new AIMessage(v)] and
    [new ToolMessage(v)] return, when they return. *)
Definition HumanMessage (v : Value) : BaseMessage := New Human v.
Definition AIMessage (v : Value) : BaseMessage := New AI v.
Definition ToolMessage (v : Value) : BaseMessage := New Tool v.

Definition class_of (m : BaseMessage) : MessageClass :=
  match m with New cls _ => cls end.

Definition fields_of (m : BaseMessage) : Value :=
  match m with New _ arg => arg end.

(** Own property [o[k]] of an object literal: the first binding of [k]. *)
Fixpoint get_prop (props : list (string * Value)) (k : string) : Value :=
  match props with
  | [] => Undefined
  | (k', v) :: rest => if String.eqb k' k then v else get_prop rest k
  end.

(** [m.tool_calls] as handed to the constructor. *)
Definition tool_calls (m : BaseMessage) : Value :=
  match fields_of m with
  | Object props => get_prop props "tool_calls"
  | _ => Undefined
  end.

(** ToBoolean: the falsy values are [undefined], [null], [false], [0],
    [-0], [NaN], [0n] and the empty string.  Symbols, functions, arrays,
    objects and instances are truthy. *)
Definition truthy (v : Value) : bool :=
  match v with
  | Undefined | Null => false
  | Boolean b => b
  | Num n => negb (is_zero n || is_nan n)
  | BigInt z => negb (z =? 0)
  | Str s => negb (String.eqb s EmptyString)
  | Symbol | Function _ | Array _ | Object _ | Circular | Instance _ => true
  end.

(** [typeof v === 'string'] *)
Definition typeof_string (v : Value) : bool :=
  match v with Str _ => true | _ => false end.

(** Whether [v] is an object, on which a property can be created: true of
    arrays, plain objects, functions and instances, false of [undefined],
    [null] and the primitives. *)
Definition is_object (v : Value) : bool :=
  match v with
  | Function _ | Array _ | Object _ | Circular | Instance _ => true
  | Undefined | Null | Boolean _ | Num _ | BigInt _ | Str _ | Symbol => false
  end.

(** [v instanceof BaseMessage] *)
Definition instanceof_BaseMessage (v : Value) : bool :=
  match v with Instance _ => true | _ => false end.

(** [v instanceof AIMessage], with the instance when the test holds. *)
Definition as_AIMessage (v : Value) : option BaseMessage :=
  match v with
  | Instance (New AI arg) => Some (New AI arg)
  | _ => None
  end.

(** [elems.every((msg) => msg instanceof BaseMessage)], with the elements as
    messages when the test holds. *)
Fixpoint every_BaseMessage (elems : list Value) : option (list BaseMessage) :=
  match elems with
  | [] => Some []
  | Instance m :: rest =>
      match every_BaseMessage rest with
      | Some ms => Some (m :: ms)
      | None => None
      end
  | _ :: _ => None
  end.

(** [Array.isArray(v) && v.every((msg) => msg instanceof BaseMessage)] *)
Definition as_message_array (v : Value) : option (list BaseMessage) :=
  match v with
  | Array elems => every_BaseMessage elems
  | _ => None
  end.

(** The methods every plain object inherits from [Object.prototype]. *)
Definition Object_prototype_methods : list string :=
  ["hasOwnProperty"; "isPrototypeOf"; "propertyIsEnumerable"; "toLocaleString";
   "toString"; "valueOf"; "__defineGetter__"; "__defineSetter__";
   "__lookupGetter__"; "__lookupSetter__"]%string.

(** [Object.prototype[key]]: what a plain object yields for a key that is
    not one of its own properties. *)
Definition Object_prototype (key : string) : Value :=
  if String.eqb key "constructor" then Function "Object"
  else if String.eqb key "__proto__" then Object []
  else if existsb (String.eqb key) Object_prototype_methods then Function key
  else Undefined.

End Js.

(** ** Exceptions and effects *)

(** A JavaScript exception: an [Error] with its message, or a [TypeError]
    of the engine or of a library, whose message is not represented. *)
Inductive Error : Type :=
| MkError (message : string)
| TypeError.

Inductive Outcome (A : Type) : Type :=
| Return (a : A)
| Throw (e : Error).

Arguments Return {A} a.
Arguments Throw {A} e.

(** ** The message constructors and JSON.stringify *)

Module LangChain.
Import Js.

(** Whether [new HumanMessage(v)] and [new AIMessage(v)] accept [v]: a
    string becomes the content of the message; on any other argument the
    constructor of [BaseMessage] sets the missing [additional_kwargs] and
    [response_metadata] of the argument, which an object allows and
    [undefined], [null] and the other primitives answer with a
    [TypeError]. *)
Definition accepts (v : Value) : bool := typeof_string v || is_object v.

(** [new Cls(v)] for a message class [Cls]. *)
Definition new_message (cls : MessageClass) (v : Value) : Outcome BaseMessage :=
  if accepts v then Return (New cls v) else Throw TypeError.

End LangChain.

Module JSON.

(** What [JSON.stringify(v)] does: return a text, return [undefined] (for
    [undefined], a function or a symbol), or throw (for a BigInt or a
    circular structure, or whatever a [toJSON] method throws). *)
Inductive Stringified : Type :=
| Text (text : string)
| NoText
| Raised (e : Error).

End JSON.

(** ** The chat-history store *)

Module History.
Import Js.

(** The handle [new PostgresChatMessageHistory({ pool, sessionId, tableName })].
    The connection pool is not represented. *)
Record PostgresChatMessageHistory : Type := {
  tableName : string;
  sessionId : string
}.

(** The operations a handle offers. *)
Inductive Call : Type :=
| GetMessages
| AddMessage (m : BaseMessage)
| AddMessages (ms : list BaseMessage)
| Clear.

(** Modelled from the spec: the chat-history store of
    [@langchain/community/stores/message/postgres] is not part of this
    repository.  Each table holds one row per message, keyed by session id,
    in insertion order; [calls] records every call made on a handle, and
    [faults] scripts the outcome of the calls to come ([Some e]: the call
    fails with [e] and changes no row; [None] or an exhausted script: the call
    succeeds). *)
Record Database : Type := {
  tables : gmap string (list (string * BaseMessage));
  calls : list (PostgresChatMessageHistory * Call);
  faults : list (option Error)
}.

(** Code that may call the store and may throw. *)
Definition Eff (A : Type) : Type := Database -> Outcome A * Database.

#[export] Instance eff_ret : MRet Eff := fun A a db => (Return a, db).

#[export] Instance eff_bind : MBind Eff := fun A B k c db =>
  match c db with
  | (Return a, db') => k a db'
  | (Throw e, db') => (Throw e, db')
  end.

Definition throw {A : Type} (e : Error) : Eff A := fun db => (Throw e, db).

Definition rows_of (db : Database) (table : string) : list (string * BaseMessage) :=
  default [] (tables db !! table).

(** The rows of a session, in insertion order. *)
Definition session_rows (sid : string) (rows : list (string * BaseMessage)) :
    list (string * BaseMessage) :=
  filter (fun r => r.1 = sid) rows.

(** The log of the session of a handle: the messages of its rows. *)
Definition log (db : Database) (h : PostgresChatMessageHistory) : list BaseMessage :=
  (session_rows (sessionId h) (rows_of db (tableName h))).*2.

(** Modelled from the spec: one call on a handle.  The call is recorded, the
    next scripted outcome is consumed, and on success the table of the handle
    is replaced by [update] of its rows and [result] of the old rows is
    returned. *)
Definition call {A : Type} (h : PostgresChatMessageHistory) (c : Call)
    (update : list (string * BaseMessage) -> list (string * BaseMessage))
    (result : list (string * BaseMessage) -> A) : Eff A :=
  fun db =>
    let rows := rows_of db (tableName h) in
    let made := calls db ++ [(h, c)] in
    match faults db with
    | Some e :: script =>
        (Throw e, {| tables := tables db; calls := made; faults := script |})
    | None :: script =>
        (Return (result rows),
         {| tables := <[tableName h := update rows]> (tables db);
            calls := made; faults := script |})
    | [] =>
        (Return (result rows),
         {| tables := <[tableName h := update rows]> (tables db);
            calls := made; faults := [] |})
    end.

(** Modelled from the spec: [getMessages() -> ordered sequence of Message]. *)
Definition getMessages (h : PostgresChatMessageHistory) : Eff (list BaseMessage) :=
  call h GetMessages (fun rows => rows)
       (fun rows => (session_rows (sessionId h) rows).*2).

(** Modelled from the spec: [addMessage(Message) -> void]. *)
Definition addMessage (h : PostgresChatMessageHistory) (m : BaseMessage) : Eff unit :=
  call h (AddMessage m) (fun rows => rows ++ [(sessionId h, m)]) (fun _ => tt).

(** Modelled from the spec: [addMessages(sequence of Message) -> void], one
    batched call. *)
Definition addMessages (h : PostgresChatMessageHistory) (ms : list BaseMessage) :
    Eff unit :=
  call h (AddMessages ms)
       (fun rows => rows ++ ((fun m => (sessionId h, m)) <$> ms)) (fun _ => tt).

(** Modelled from the spec: [clear() -> void] removes the rows of the
    session. *)
Definition clear (h : PostgresChatMessageHistory) : Eff unit :=
  call h Clear (fun rows => filter (fun r => r.1 <> sessionId h) rows)
       (fun _ => tt).

End History.

(** ** PostgresToolAwareMemory *)

Module Memory.
Import Js History LangChain.

(** The argument of the constructor; an absent (or [null]) field is [None]. *)
Module Input.
Record t : Type := {
  memoryKey : option string;
  inputKey : option string;
  outputKey : option string;
  chatHistory : option PostgresChatMessageHistory;
  returnMessages : option bool
}.
End Input.

Record PostgresToolAwareMemory : Type := {
  history : PostgresChatMessageHistory;
  memoryKey : string;
  inputKey : option string;
  outputKey : option string;
  returnMessages : bool;
  chatHistory : PostgresChatMessageHistory
}.

(** [input?.field]: the field of an optional argument. *)
Definition field {A : Type} (input : option Input.t) (f : Input.t -> option A) :
    option A :=
  match input with
  | Some i => f i
  | None => None
  end.

(** [x ?? d] *)
Definition nullish {A : Type} (x : option A) (d : A) : A :=
  match x with
  | Some a => a
  | None => d
  end.

Definition handle_required : Error :=
  MkError "PostgresChatMessageHistory instance is required for PostgresToolAwareMemory".

(** [new PostgresToolAwareMemory(input)] *)
Definition new (input : option Input.t) : Eff PostgresToolAwareMemory :=
  let returnMessages' := nullish (field input Input.returnMessages) true in
  let memoryKey' := nullish (field input Input.memoryKey) "chat_history"%string in
  match field input Input.chatHistory with
  | None => throw handle_required
  | Some h =>
      mret {| history := h;
              memoryKey := memoryKey';
              inputKey := nullish (Some <$> field input Input.inputKey) (Some "input"%string);
              outputKey := nullish (Some <$> field input Input.outputKey) (Some "output"%string);
              returnMessages := returnMessages';
              chatHistory := h |}
  end.

(** [get memoryKeys()] *)
Definition memoryKeys (this : PostgresToolAwareMemory) : list string :=
  [memoryKey this].

(** ToBoolean of a key of type [string | undefined]. *)
Definition key_truthy (key : option string) : bool :=
  match key with
  | Some k => negb (String.eqb k EmptyString)
  | None => false
  end.

(** [record[key]] for a [Record<string, any>], a plain object: an own
    property if there is one, else what [Object.prototype] has under the
    key; an [undefined] key reads the property named ["undefined"]. *)
Definition index (record : gmap string Value) (key : option string) : Value :=
  match record !! nullish key "undefined"%string with
  | Some v => v
  | None => Object_prototype (nullish key "undefined"%string)
  end.

(** A synchronous expression inside asynchronous code. *)
Definition lift {A : Type} (o : Outcome A) : Eff A := fun db => (o, db).

Section Operations.

(** The engine's [JSON.stringify]. *)
Variable stringify : Value -> JSON.Stringified.

Definition JSON_stringify (v : Value) : Eff Value :=
  match stringify v with
  | JSON.Text text => mret (Str text)
  | JSON.NoText => mret Undefined
  | JSON.Raised e => throw e
  end.

Definition loadMemoryVariables (this : PostgresToolAwareMemory)
    (_values : gmap string Value) : Eff (gmap string Value) :=
  messages ← getMessages (history this);
  mret {[ memoryKey this := Array (Instance <$> messages) ]}.

Definition saveContext (this : PostgresToolAwareMemory)
    (inputs outputs : gmap string Value) : Eff unit :=
  (if key_truthy (inputKey this) && truthy (index inputs (inputKey this))
   then
     message ← lift (new_message Human (index inputs (inputKey this)));
     addMessage (history this) message
   else mret tt) ;;
  if key_truthy (outputKey this) && truthy (index outputs (outputKey this))
  then
    let outputValue := index outputs (outputKey this) in
    if typeof_string outputValue then
      message ← lift (new_message AI outputValue);
      addMessage (history this) message
    else match as_AIMessage outputValue with
    | Some message => addMessage (history this) message
    | None =>
        match as_message_array outputValue with
        | Some messages => addMessages (history this) messages
        | None =>
            text ← JSON_stringify outputValue;
            message ← lift (new_message AI text);
            addMessage (history this) message
        end
    end
  else mret tt.

Definition clear (this : PostgresToolAwareMemory) : Eff unit :=
  History.clear (history this).

End Operations.

End Memory.

(** ** MemoryPostgresChat.supplyData *)

Module MemoryPostgresChat.
Import Js History.

(** What [supplyData] reads from its execution context: the node's
    [typeVersion] and parameters, and the session id [getSessionId]
    resolves.  A version is a rational; the comparisons of the source are
    made on the decimal literals [1.1] and [1.4]. *)
Record Context : Type := {
  typeVersion : Q;
  tableName : string;
  sessionId : string;
  supportToolCalls : bool;
  contextWindowLength : Z
}.

(** The options handed to LangChain's [BufferMemory] and
    [BufferWindowMemory]; [k] is absent for the former. *)
Record Options : Type := {
  memoryKey : string;
  chatHistory : PostgresChatMessageHistory;
  returnMessages : bool;
  inputKey : string;
  outputKey : string;
  k : option Z
}.

(** The memory object [supplyData] returns (before [logWrapper]). *)
Inductive MemoryObject : Type :=
| BufferMemory (options : Options)
| BufferWindowMemory (options : Options)
| ToolAware (memory : Memory.PostgresToolAwareMemory).

Definition Qlt_bool (x y : Q) : bool := negb (Qle_bool y x).

Definition supplyData (this : Context) : Eff MemoryObject :=
  let pgChatHistory :=
    {| History.tableName := tableName this; History.sessionId := sessionId this |} in
  if Qle_bool (14 # 10) (typeVersion this) && supportToolCalls this then
    memory ← Memory.new (Some
      {| Memory.Input.memoryKey := Some "chat_history"%string;
         Memory.Input.chatHistory := Some pgChatHistory;
         Memory.Input.returnMessages := Some true;
         Memory.Input.inputKey := Some "input"%string;
         Memory.Input.outputKey := Some "output"%string |});
    mret (ToolAware memory)
  else
    let memClass :=
      if Qlt_bool (typeVersion this) (11 # 10) then BufferMemory
      else BufferWindowMemory in
    let kOptions :=
      if Qlt_bool (typeVersion this) (11 # 10) then None
      else Some (contextWindowLength this) in
    mret (memClass
      {| memoryKey := "chat_history"; chatHistory := pgChatHistory;
         returnMessages := true; inputKey := "input"; outputKey := "output";
         k := kOptions |}).

(** The window of a memory object: the number of turns
    [loadMemoryVariables] is limited to, if any. *)
Definition window (memory : MemoryObject) : option Z :=
  match memory with
  | BufferMemory _ => None
  | BufferWindowMemory options => k options
  | ToolAware _ => None
  end.

End MemoryPostgresChat.

(** ** MemoryPostgresChat.description *)

Module Description.

(** A condition of [displayOptions] on ['@version']: [{ _cnd: { lt: t } }]
    holds of the versions below [t], [{ _cnd: { gte: t } }] of the versions
    from [t] on. *)
Inductive Condition : Type :=
| cnd_lt (t : Q)
| cnd_gte (t : Q).

(** [displayOptions: { show: { '@version': [...] } }] displays the field
    when one of the conditions holds; [hide] displays it when none holds. *)
Inductive DisplayOptions : Type :=
| show (on_version : list Condition)
| hide (on_version : list Condition).

(** The [displayOptions] of the field [contextWindowLength]. *)
Definition contextWindowLength : DisplayOptions := hide [cnd_lt (11 # 10)].

(** The [displayOptions] of the field [supportToolCalls]. *)
Definition supportToolCalls : DisplayOptions := show [cnd_gte (14 # 10)].

Definition holds (typeVersion : Q) (c : Condition) : bool :=
  match c with
  | cnd_lt t => MemoryPostgresChat.Qlt_bool typeVersion t
  | cnd_gte t => Qle_bool t typeVersion
  end.

(** Whether a node of version [typeVersion] displays a field. *)
Definition displayed (options : DisplayOptions) (typeVersion : Q) : bool :=
  match options with
  | show conditions => existsb (holds typeVersion) conditions
  | hide conditions => negb (existsb (holds typeVersion) conditions)
  end.

End Description.

(** ** Vocabulary of the properties *)

Module Spec.
Import Js History LangChain Memory.

#[export] Instance handle_eq_dec : EqDecision PostgresChatMessageHistory.
Proof. solve_decision. Defined.

(** The outcome the store has scripted for the next call. *)
Definition next_fault (db : Database) : option Error :=
  match faults db with
  | Some e :: _ => Some e
  | _ => None
  end.

(** The messages a call asks the store to append. *)
Definition appended_by (c : Call) : list BaseMessage :=
  match c with
  | AddMessage m => [m]
  | AddMessages ms => ms
  | GetMessages | Clear => []
  end.

(** The messages the calls [cs] ask the store to append to the log of the
    session of [h], in call order. *)
Fixpoint appended (h : PostgresChatMessageHistory)
    (cs : list (PostgresChatMessageHistory * Call)) : list BaseMessage :=
  match cs with
  | [] => []
  | hc :: rest =>
      (if decide (h = hc.1) then appended_by hc.2 else []) ++ appended h rest
  end.

(** Issuing a recorded call again on its handle. *)
Definition perform (hc : PostgresChatMessageHistory * Call) : Eff unit :=
  match hc.2 with
  | GetMessages => getMessages hc.1 ;; mret tt
  | AddMessage m => addMessage hc.1 m
  | AddMessages ms => addMessages hc.1 ms
  | Clear => History.clear hc.1
  end.

Fixpoint perform_all (cs : list (PostgresChatMessageHistory * Call)) : Eff unit :=
  match cs with
  | [] => mret tt
  | hc :: rest => perform hc ;; perform_all rest
  end.

Definition is_append (c : Call) : bool :=
  match c with
  | AddMessage _ | AddMessages _ => true
  | GetMessages | Clear => false
  end.

(** One step of [saveContext]: nothing, one call on the store, or an
    exception thrown before any call. *)
Inductive Step : Type :=
| Skip
| Invoke (hc : PostgresChatMessageHistory * Call)
| Fail (e : Error).

Definition run (s : Step) : Eff unit :=
  match s with
  | Skip => mret tt
  | Invoke hc => perform hc
  | Fail e => throw e
  end.

Definition calls_of (s : Step) : list (PostgresChatMessageHistory * Call) :=
  match s with
  | Invoke hc => [hc]
  | Skip | Fail _ => []
  end.

(** The outcome of a step when the store answers its call. *)
Definition outcome (s : Step) : Outcome unit :=
  match s with
  | Fail e => Throw e
  | Skip | Invoke _ => Return tt
  end.

(** The calls two steps in a row make when the store answers every call:
    the second step is not reached when the first throws. *)
Definition made (first second : Step) : list (PostgresChatMessageHistory * Call) :=
  match first with
  | Fail _ => []
  | _ => calls_of first ++ calls_of second
  end.

(** The outcome of two steps in a row when the store answers every call. *)
Definition result (first second : Step) : Outcome unit :=
  match first, second with
  | Fail e, _ => Throw e
  | _, Fail e => Throw e
  | _, _ => Return tt
  end.

(** [record[key]] is present and truthy, with value [v]: the key is set (a
    non-empty string), and [record[key]] evaluates to the truthy [v]. *)
Definition Present (key : option string) (record : gmap string Value)
    (v : Value) : Prop :=
  exists k, key = Some k /\ k <> EmptyString /\ index record (Some k) = v
            /\ truthy v = true.

(** [record[key]] is present but falsy, or the key itself is unset
    ([undefined], or the empty string, which the guard on the key treats
    alike). *)
Definition FalsyOrUnset (key : option string) (record : gmap string Value) : Prop :=
  key = None \/ key = Some EmptyString
  \/ exists k v, key = Some k /\ record !! k = Some v /\ truthy v = false.

(** The half of the turn read through [key] is not to be appended: the key
    is unset or empty, or [record[key]] is not truthy. *)
Definition Skipped (key : option string) (record : gmap string Value) : Prop :=
  forall v, ~ Present key record v.

(** The input of the turn, when present and truthy, is a string or an
    object, which [new HumanMessage] accepts. *)
Definition InputAccepted (this : PostgresToolAwareMemory)
    (inputs : gmap string Value) : Prop :=
  forall v, Present (inputKey this) inputs v -> accepts v = true.

(** A caller that saves a list of turns, one [saveContext] call each. *)
Fixpoint saveTurns (stringify : Value -> JSON.Stringified)
    (this : PostgresToolAwareMemory)
    (turns : list (gmap string Value * gmap string Value)) : Eff unit :=
  match turns with
  | [] => mret tt
  | (inputs, outputs) :: rest =>
      saveContext stringify this inputs outputs ;;
      saveTurns stringify this rest
  end.

Section Cases.

Variable stringify : Value -> JSON.Stringified.

Definition is_text (v : Value) : Prop := exists s, v = Str s.

Definition is_structured (v : Value) : Prop :=
  exists m, v = Instance m /\ class_of m = AI.

Definition is_sequence (v : Value) : Prop :=
  exists ms, v = Array (Instance <$> ms).

Definition is_other (v : Value) : Prop :=
  ~ is_text v /\ ~ is_structured v /\ ~ is_sequence v.

(** The four cases of the output classification, each with the call it
    leads to; the fourth leads to a call when [JSON.stringify] returns a
    text. *)
Inductive OutputCase (v : Value) : Call -> Prop :=
| case_text s :
    v = Str s -> OutputCase v (AddMessage (AIMessage (Str s)))
| case_structured m :
    v = Instance m -> class_of m = AI -> OutputCase v (AddMessage m)
| case_sequence ms :
    v = Array (Instance <$> ms) -> OutputCase v (AddMessages ms)
| case_other t :
    is_other v -> stringify v = JSON.Text t ->
    OutputCase v (AddMessage (AIMessage (Str t))).

(** The second step on a value [v] that is examined. *)
Inductive Dispatched (h : PostgresChatMessageHistory) (v : Value) : Step -> Prop :=
| dispatched_call c : OutputCase v c -> Dispatched h v (Invoke (h, c))
| dispatched_without_text :
    is_other v -> stringify v = JSON.NoText -> Dispatched h v (Fail TypeError)
| dispatched_raised e :
    is_other v -> stringify v = JSON.Raised e -> Dispatched h v (Fail e).


(** The first step of [saveContext]. *)
Inductive InputStep (this : PostgresToolAwareMemory)
    (inputs : gmap string Value) : Step -> Prop :=
| input_saved v :
    Present (inputKey this) inputs v -> accepts v = true ->
    InputStep this inputs (Invoke (history this, AddMessage (HumanMessage v)))
| input_refused v :
    Present (inputKey this) inputs v -> accepts v = false ->
    InputStep this inputs (Fail TypeError)
| input_left :
    Skipped (inputKey this) inputs -> InputStep this inputs Skip.

(** The second step of [saveContext]. *)
Inductive OutputStep (this : PostgresToolAwareMemory)
    (outputs : gmap string Value) : Step -> Prop :=
| output_saved v c :
    Present (outputKey this) outputs v -> OutputCase v c ->
    OutputStep this outputs (Invoke (history this, c))
| output_without_text v :
    Present (outputKey this) outputs v -> is_other v ->
    stringify v = JSON.NoText ->
    OutputStep this outputs (Fail TypeError)
| output_not_serializable v e :
    Present (outputKey this) outputs v -> is_other v ->
    stringify v = JSON.Raised e ->
    OutputStep this outputs (Fail e)
| output_left :
    Skipped (outputKey this) outputs -> OutputStep this outputs Skip.

(** The calls of the first step of [saveContext], when it does not throw. *)
Inductive InputHalf (this : PostgresToolAwareMemory)
    (inputs : gmap string Value) :
    list (PostgresChatMessageHistory * Call) -> Prop :=
| input_appended v :
    Present (inputKey this) inputs v -> accepts v = true ->
    InputHalf this inputs [(history this, AddMessage (HumanMessage v))]
| input_skipped :
    Skipped (inputKey this) inputs -> InputHalf this inputs [].


End Cases.

End Spec.

(** ** A concrete node, for the examples *)

Module Example.
Import Js History Memory.

(** A stand-in for the engine's [JSON.stringify], with its three kinds of
    answer.  The texts are abridged: a number other than zero as [...], a
    string between quotes without its escapes, a non-empty container and a
    message as a mark of their kind. *)
Definition quoted (s : string) : string :=
  String (ascii_of_N 34) (s ++ String (ascii_of_N 34) EmptyString)%string.

Definition stringify (v : Value) : JSON.Stringified :=
  match v with
  | Undefined | Symbol | Function _ => JSON.NoText
  | BigInt _ | Circular => JSON.Raised TypeError
  | Null => JSON.Text "null"
  | Boolean true => JSON.Text "true"
  | Boolean false => JSON.Text "false"
  | Num n =>
      if is_nan n || is_infinity n then JSON.Text "null"
      else if is_zero n then JSON.Text "0"
      else JSON.Text "..."
  | Str s => JSON.Text (quoted s)
  | Array [] => JSON.Text "[]"
  | Array _ => JSON.Text "[...]"
  | Object [] => JSON.Text "{}"
  | Object _ => JSON.Text "{...}"
  | Instance (New Human _) => JSON.Text "{human}"
  | Instance (New AI _) => JSON.Text "{ai}"
  | Instance (New Tool _) => JSON.Text "{tool}"
  | Instance (New _ _) => JSON.Text "{message}"
  end.

Definition session : PostgresChatMessageHistory :=
  {| tableName := "n8n_chat_histories"; sessionId := "session-1" |}.

Definition other_session : PostgresChatMessageHistory :=
  {| tableName := "n8n_chat_histories"; sessionId := "session-2" |}.

Definition memory : PostgresToolAwareMemory :=
  {| history := session; memoryKey := "chat_history";
     inputKey := Some "input"%string; outputKey := Some "output"%string;
     returnMessages := true; chatHistory := session |}.

(** A constructor argument that gives the handle and nothing else. *)
Definition handle_only : Input.t :=
  {| Input.memoryKey := None; Input.inputKey := None; Input.outputKey := None;
     Input.chatHistory := Some session; Input.returnMessages := None |}.

Definition empty_db : Database :=
  {| tables := ∅; calls := []; faults := [] |}.

(** A database in which both sessions already have a message. *)
Definition busy_db : Database :=
  {| tables :=
       {[ "n8n_chat_histories"%string :=
            [("session-2"%string, HumanMessage (Str "earlier"));
             ("session-1"%string, AIMessage (Str "before"))] ]};
     calls := []; faults := [] |}.

(** The second call on the store will fail. *)
Definition failing_db : Database :=
  {| tables := ∅; calls := [];
     faults := [None; Some (MkError "connection terminated")] |}.

Definition weather_call : Value :=
  Object [("name"%string, Str "get_weather");
          ("args"%string, Object [("city"%string, Str "Lisbon")]);
          ("id"%string, Str "call_1")].

(** An AI message that requests a tool call. *)
Definition tool_request : BaseMessage :=
  AIMessage (Object [("content"%string, Str EmptyString);
                     ("tool_calls"%string, Array [weather_call])]).

Definition tool_result : BaseMessage :=
  ToolMessage (Object [("content"%string, Str "18C");
                       ("tool_call_id"%string, Str "call_1")]).

Definition hello : gmap string Value := {[ "input"%string := Str "Hello" ]}.
Definition hi_there : gmap string Value := {[ "output"%string := Str "Hi there" ]}.

(** An input that is a number. *)
Definition forty_two : gmap string Value := {[ "input"%string := Num 42%float ]}.

Definition plain_object : Value :=
  Object [("answer"%string, Num 42%float); ("final"%string, Boolean true);
          ("note"%string, Undefined)].

Definition plain_output : gmap string Value := {[ "output"%string := plain_object ]}.


Definition tool_output : gmap string Value :=
  {[ "output"%string := Instance tool_request ]}.

Definition sequence_output : gmap string Value :=
  {[ "output"%string :=
       Array [Instance tool_request; Instance tool_result; Instance tool_result] ]}.

Definition empty_output : gmap string Value := {[ "output"%string := Array [] ]}.

Definition falsy_input : gmap string Value := {[ "input"%string := Str EmptyString ]}.
Definition falsy_output : gmap string Value := {[ "output"%string := Num 0%float ]}.

Definition turns : list (gmap string Value * gmap string Value) :=
  [(hello, tool_output); (∅, sequence_output); (falsy_input, hi_there)].

(** Turns of which the second has a number as its input. *)
Definition turns_with_number : list (gmap string Value * gmap string Value) :=
  [(hello, tool_output); (forty_two, hi_there); (hello, hi_there)].

(** Outputs with a field besides the one under the output key. *)
Definition with_steps : gmap string Value :=
  <[ "intermediateSteps"%string := Array [Instance tool_result] ]> hi_there.

(** An array whose second element is not a message. *)
Definition mixed_output : gmap string Value :=
  {[ "output"%string := Array [Instance tool_request; Str "done"] ]}.

(** A tool result on its own, outside any array. *)
Definition lone_tool_output : gmap string Value :=
  {[ "output"%string := Instance tool_result ]}.

(** The next call on the store will fail. *)
Definition unreachable_db : Database :=
  {| tables :=
       {[ "n8n_chat_histories"%string :=
            [("session-1"%string, AIMessage (Str "before"))] ]};
     calls := []; faults := [Some (MkError "connection refused")] |}.

(** A constructor argument that overrides both keys with the empty string. *)
Definition empty_keys : Input.t :=
  {| Input.memoryKey := None; Input.inputKey := Some EmptyString;
     Input.outputKey := Some EmptyString;
     Input.chatHistory := Some session; Input.returnMessages := None |}.

(** Records that bind the empty key to a truthy value. *)
Definition under_empty_key : gmap string Value := {[ EmptyString := Str "Hello" ]}.

(** An adapter whose output key names a method every record inherits. *)
Definition inherited_key : PostgresToolAwareMemory :=
  {| history := session; memoryKey := "chat_history";
     inputKey := Some "input"%string; outputKey := Some "toString"%string;
     returnMessages := true; chatHistory := session |}.

Definition context_of (version : Q) (tools : bool) (sid : string) (window : Z) :
    MemoryPostgresChat.Context :=
  {| MemoryPostgresChat.typeVersion := version;
     MemoryPostgresChat.tableName := "n8n_chat_histories";
     MemoryPostgresChat.sessionId := sid;
     MemoryPostgresChat.supportToolCalls := tools;
     MemoryPostgresChat.contextWindowLength := window |}.

Definition context (version : Q) (tools : bool) : MemoryPostgresChat.Context :=
  {| MemoryPostgresChat.typeVersion := version; MemoryPostgresChat.tableName := "n8n_chat_histories";
     MemoryPostgresChat.sessionId := "session-1"; MemoryPostgresChat.supportToolCalls := tools;
     MemoryPostgresChat.contextWindowLength := 5 |}.

End Example.

(** * Properties *)

Import Js History LangChain Memory Spec.

(** ** JavaScript values *)

Lemma every_BaseMessage_Some elems ms :
  every_BaseMessage elems = Some ms <-> elems = Instance <$> ms.
Proof.
  revert ms. induction elems as [|x elems IH]; intros ms; simpl.
  - split.
    + intros [= <-]. reflexivity.
    + destruct ms; [reflexivity | discriminate].
  - destruct x; try (split; [discriminate | destruct ms; discriminate]).
    destruct (every_BaseMessage elems) as [ms'|] eqn:E.
    + split.
      * intros [= <-]. simpl. f_equal. apply IH. reflexivity.
      * destruct ms as [|m0 ms0]; [discriminate|]. simpl. intros [= -> H].
        apply IH in H. congruence.
    + split; [discriminate|].
      destruct ms as [|m0 ms0]; [discriminate|]. simpl. intros [= -> H].
      apply IH in H. discriminate.
Qed.

Lemma as_message_array_Some v ms :
  as_message_array v = Some ms <-> v = Array (Instance <$> ms).
Proof.
  destruct v; simpl; try (split; discriminate).
  rewrite every_BaseMessage_Some. split; congruence.
Qed.

Lemma as_message_array_None v :
  as_message_array v = None -> ~ is_sequence v.
Proof.
  intros H [ms Hms]. apply as_message_array_Some in Hms. congruence.
Qed.

Lemma as_AIMessage_Some v m :
  as_AIMessage v = Some m <-> v = Instance m /\ class_of m = AI.
Proof.
  destruct v as [| | | | | | | | | | |[cls arg]]; simpl;
    try (split; [discriminate | intros [? _]; discriminate]).
  destruct cls; simpl.
  all: split; [try discriminate | intros [[= <-] Hc]; simpl in Hc; try discriminate].
  all: try reflexivity.
  intros [= <-]. split; reflexivity.
Qed.

Lemma as_AIMessage_None v : as_AIMessage v = None -> ~ is_structured v.
Proof.
  intros H [m Hm]. apply as_AIMessage_Some in Hm. congruence.
Qed.

Lemma typeof_string_true v : typeof_string v = true <-> is_text v.
Proof.
  destruct v; simpl; split; try discriminate; try (intros [s [=]]).
  - intros _. eexists. reflexivity.
  - reflexivity.
Qed.

Lemma instance_fmap_inj (ms ms' : list BaseMessage) :
  Instance <$> ms = Instance <$> ms' -> ms = ms'.
Proof.
  revert ms'. induction ms as [|m ms IH]; intros [|m' ms']; simpl;
    try discriminate; [reflexivity|].
  intros [= -> H]. f_equal. apply IH, H.
Qed.

(** ** The store *)

Lemma bind_run {A B : Type} (c : Eff A) (k : A -> Eff B) db :
  (c ≫= k) db =
  match c db with
  | (Return a, db') => k a db'
  | (Throw e, db') => (Throw e, db')
  end.
Proof. reflexivity. Qed.

Lemma call_success {A : Type} h c u (r : _ -> A) db :
  next_fault db = None ->
  call h c u r db =
  (Return (r (rows_of db (tableName h))),
   {| tables := <[tableName h := u (rows_of db (tableName h))]> (tables db);
      calls := calls db ++ [(h, c)];
      faults := tail (faults db) |}).
Proof.
  unfold next_fault, call. destruct (faults db) as [|[e|] script];
    [reflexivity | discriminate | reflexivity].
Qed.

Lemma call_failure {A : Type} h c u (r : _ -> A) db e :
  next_fault db = Some e ->
  call h c u r db =
  (Throw e,
   {| tables := tables db; calls := calls db ++ [(h, c)];
      faults := tail (faults db) |}).
Proof.
  unfold next_fault, call. destruct (faults db) as [|[e'|] script];
    [discriminate | intros [= ->]; reflexivity | discriminate].
Qed.

Lemma call_calls {A : Type} h c u (r : _ -> A) db :
  calls (call h c u r db).2 = calls db ++ [(h, c)].
Proof. unfold call. destruct (faults db) as [|[e|] script]; reflexivity. Qed.

Lemma session_rows_tagged sid sid' (ms : list BaseMessage) :
  (session_rows sid' ((fun m => (sid, m)) <$> ms)).*2 =
  if decide (sid' = sid) then ms else [].
Proof.
  unfold session_rows. induction ms as [|m ms IH].
  - destruct (decide (sid' = sid)); reflexivity.
  - rewrite fmap_cons, filter_cons. cbn [fst].
    destruct (decide (sid = sid')) as [->|Hne].
    + rewrite fmap_cons, IH. repeat case_decide; congruence || reflexivity.
    + rewrite IH. repeat case_decide; congruence || reflexivity.
Qed.

Lemma session_rows_cleared sid sid' (rows : list (string * BaseMessage)) :
  session_rows sid' (filter (fun r => r.1 <> sid) rows) =
  if decide (sid' = sid) then [] else session_rows sid' rows.
Proof.
  unfold session_rows. induction rows as [|[s m] rows IH].
  - destruct (decide (sid' = sid)); reflexivity.
  - rewrite !filter_cons. cbn [fst]. destruct (decide (s <> sid)) as [Hs|Hs].
    + rewrite filter_cons, IH. cbn [fst].
      repeat case_decide; congruence || reflexivity.
    + rewrite IH. apply dec_stable in Hs.
      repeat case_decide; congruence || reflexivity.
Qed.

Lemma log_updated db h rows cs fs h' :
  log {| tables := <[tableName h := rows]> (tables db);
         calls := cs; faults := fs |} h' =
  if decide (tableName h' = tableName h)
  then (session_rows (sessionId h') rows).*2
  else log db h'.
Proof.
  unfold log, rows_of. simpl. destruct (decide (tableName h' = tableName h)) as [->|Hne].
  - rewrite lookup_insert_eq. reflexivity.
  - rewrite lookup_insert_ne by congruence. reflexivity.
Qed.

Lemma handle_eq (h h' : PostgresChatMessageHistory) :
  tableName h' = tableName h -> sessionId h' = sessionId h -> h' = h.
Proof. destruct h, h'. simpl. congruence. Qed.

(** A successful append adds its messages to the log of its session and
    to no other log. *)
Lemma append_log db h cs fs (ms : list BaseMessage) h' :
  log {| tables :=
           <[tableName h :=
               rows_of db (tableName h) ++ ((fun m => (sessionId h, m)) <$> ms)]>
             (tables db);
         calls := cs; faults := fs |} h' =
  log db h' ++ (if decide (h' = h) then ms else []).
Proof.
  rewrite log_updated.
  destruct (decide (tableName h' = tableName h)) as [Ht|Ht].
  - unfold session_rows. rewrite filter_app, fmap_app.
    fold (session_rows (sessionId h') ((fun m => (sessionId h, m)) <$> ms)).
    rewrite session_rows_tagged. unfold log, session_rows. rewrite Ht.
    f_equal. destruct (decide (sessionId h' = sessionId h)) as [Hs|Hs].
    + rewrite decide_True by (apply handle_eq; assumption). reflexivity.
    + rewrite decide_False by congruence. reflexivity.
  - rewrite decide_False by congruence. rewrite app_nil_r. reflexivity.
Qed.

Lemma addMessages_run h ms db :
  next_fault db = None ->
  exists db',
    addMessages h ms db = (Return tt, db')
    /\ calls db' = calls db ++ [(h, AddMessages ms)]
    /\ faults db' = tail (faults db)
    /\ forall h', log db' h' = log db h' ++ (if decide (h' = h) then ms else []).
Proof.
  intros Hf. unfold addMessages. rewrite call_success by assumption.
  eexists. split; [reflexivity|]. simpl. repeat split.
  intros h'. apply append_log.
Qed.

Lemma addMessage_run h m db :
  next_fault db = None ->
  exists db',
    addMessage h m db = (Return tt, db')
    /\ calls db' = calls db ++ [(h, AddMessage m)]
    /\ faults db' = tail (faults db)
    /\ forall h', log db' h' = log db h' ++ (if decide (h' = h) then [m] else []).
Proof.
  intros Hf. unfold addMessage. rewrite call_success by assumption.
  eexists. split; [reflexivity|]. simpl. repeat split.
  intros h'. apply (append_log db h _ _ [m]).
Qed.

Lemma getMessages_run h db :
  next_fault db = None ->
  exists db',
    getMessages h db = (Return (log db h), db')
    /\ calls db' = calls db ++ [(h, GetMessages)]
    /\ faults db' = tail (faults db)
    /\ forall h', log db' h' = log db h'.
Proof.
  intros Hf. unfold getMessages. rewrite call_success by assumption.
  eexists. split; [reflexivity|]. simpl. repeat split.
  intros h'. rewrite log_updated. destruct (decide (tableName h' = tableName h)) as [Ht|Ht];
    [|reflexivity].
  unfold log. rewrite Ht. reflexivity.
Qed.

Lemma clear_run h db :
  next_fault db = None ->
  exists db',
    History.clear h db = (Return tt, db')
    /\ calls db' = calls db ++ [(h, Clear)]
    /\ faults db' = tail (faults db)
    /\ forall h', log db' h' = if decide (h' = h) then [] else log db h'.
Proof.
  intros Hf. unfold History.clear. rewrite call_success by assumption.
  eexists. split; [reflexivity|]. simpl. repeat split.
  intros h'. rewrite log_updated.
  destruct (decide (tableName h' = tableName h)) as [Ht|Ht].
  - rewrite session_rows_cleared.
    destruct (decide (sessionId h' = sessionId h)) as [Hs|Hs].
    + rewrite decide_True by (apply handle_eq; assumption). reflexivity.
    + rewrite decide_False by congruence. unfold log. rewrite Ht. reflexivity.
  - rewrite decide_False by congruence. reflexivity.
Qed.

Lemma perform_append hc db :
  is_append hc.2 = true ->
  next_fault db = None ->
  exists db',
    perform hc db = (Return tt, db')
    /\ calls db' = calls db ++ [hc]
    /\ faults db' = tail (faults db)
    /\ forall h',
         log db' h' = log db h' ++ (if decide (h' = hc.1) then appended_by hc.2 else []).
Proof.
  destruct hc as [h [|m|ms|]]; simpl; try discriminate; intros _ Hf.
  - apply addMessage_run, Hf.
  - apply addMessages_run, Hf.
Qed.

Lemma perform_append_failure hc db e :
  is_append hc.2 = true ->
  next_fault db = Some e ->
  exists db',
    perform hc db = (Throw e, db')
    /\ calls db' = calls db ++ [hc]
    /\ faults db' = tail (faults db)
    /\ forall h', log db' h' = log db h'.
Proof.
  destruct hc as [h [|m|ms|]]; simpl; try discriminate; intros _ Hf;
    unfold perform, addMessage, addMessages; simpl;
    rewrite (call_failure _ _ _ _ _ e) by assumption;
    (eexists; split; [reflexivity|]; simpl; repeat split).
Qed.

Lemma perform_calls hc db : calls (perform hc db).2 = calls db ++ [hc].
Proof.
  destruct hc as [h [|m|ms|]]; unfold perform; simpl;
    try apply call_calls.
  rewrite bind_run. pose proof (call_calls h GetMessages (fun rows => rows)
    (fun rows => (session_rows (sessionId h) rows).*2) db) as Hc.
  unfold getMessages. destruct (call _ _ _ _ db) as [[a|e] db']; exact Hc.
Qed.

(** ** saveContext *)

Section SaveContext.

Variable stringify : Value -> JSON.Stringified.

Lemma guard_true key record :
  key_truthy key && truthy (index record key) = true ->
  Present key record (index record key).
Proof.
  intros H. apply andb_prop in H as [Hk Hv]. destruct key as [k|]; [|discriminate].
  simpl in Hk. exists k. repeat split; try assumption.
  intros ->. discriminate.
Qed.

Lemma guard_false key record :
  key_truthy key && truthy (index record key) = false -> Skipped key record.
Proof.
  intros H v (k & -> & Hk & Hr & Hv). rewrite Hr, Hv, andb_true_r in H.
  simpl in H. apply negb_false_iff, String.eqb_eq in H. contradiction.
Qed.

Lemma present_guard key record v :
  Present key record v ->
  key_truthy key && truthy (index record key) = true /\ index record key = v.
Proof.
  intros (k & -> & Hk & Hr & Hv). rewrite Hr. split; [|reflexivity].
  rewrite Hv, andb_true_r. simpl. apply negb_true_iff, String.eqb_neq, Hk.
Qed.

Lemma present_unique key record v v' :
  Present key record v -> Present key record v' -> v = v'.
Proof.
  intros H H'. apply present_guard in H as [_ <-]. apply present_guard in H' as [_ <-].
  reflexivity.
Qed.

Lemma output_case_append v c : OutputCase stringify v c -> is_append c = true.
Proof. intros []; reflexivity. Qed.

(** The classification is a function of the value. *)
Lemma output_case_unique v c c' :
  OutputCase stringify v c -> OutputCase stringify v c' -> c = c'.
Proof.
  intros H H'.
  destruct H as [s Hs|m Hm Hc|ms Hms|t (Ht & Hst & Hsq) Hser];
    destruct H' as [s' Hs'|m' Hm' Hc'|ms' Hms'|t' (Ht' & Hst' & Hsq') Hser'];
    try congruence.
  - exfalso. apply Ht'. exists s. assumption.
  - exfalso. apply Hst'. exists m. split; assumption.
  - f_equal. rewrite Hms in Hms'. injection Hms' as Hms'.
    apply instance_fmap_inj, Hms'.
  - exfalso. apply Hsq'. exists ms. assumption.
  - exfalso. apply Ht. exists s'. assumption.
  - exfalso. apply Hst. exists m'. split; assumption.
  - exfalso. apply Hsq. exists ms'. assumption.
Qed.

Lemma output_case_not_other v c :
  OutputCase stringify v c -> is_other v -> exists t, stringify v = JSON.Text t.
Proof.
  intros [s Hs|m Hm Hc|ms Hms|t _ Hser] (Ht & Hst & Hsq); [exfalso..|eauto].
  - apply Ht. exists s. assumption.
  - apply Hst. exists m. split; assumption.
  - apply Hsq. exists ms. assumption.
Qed.

(** The dispatch on the output value follows the four cases. *)
Lemma output_dispatch h v :
  exists s,
    Dispatched stringify h v s
    /\ forall db,
         (if typeof_string v then
            message ← lift (new_message AI v); addMessage h message
          else match as_AIMessage v with
               | Some message => addMessage h message
               | None =>
                   match as_message_array v with
                   | Some messages => addMessages h messages
                   | None =>
                       text ← JSON_stringify stringify v;
                       message ← lift (new_message AI text);
                       addMessage h message
                   end
               end) db = run s db.
Proof.
  destruct (typeof_string v) eqn:Ht.
  - apply typeof_string_true in Ht as Hs. destruct Hs as [s ->].
    eexists. split; [apply dispatched_call, (case_text _ _ s); reflexivity|].
    intros db. reflexivity.
  - destruct (as_AIMessage v) as [m|] eqn:Ha.
    + apply as_AIMessage_Some in Ha as [-> Hc].
      eexists. split;
        [apply dispatched_call, (case_structured _ _ m); [reflexivity | assumption]|].
      intros db. reflexivity.
    + destruct (as_message_array v) as [ms|] eqn:Hm.
      * apply as_message_array_Some in Hm as ->.
        eexists. split; [apply dispatched_call, (case_sequence _ _ ms); reflexivity|].
        intros db. reflexivity.
      * assert (Hother : is_other v).
        { split; [|split].
          - intros Hs. apply typeof_string_true in Hs. congruence.
          - apply as_AIMessage_None, Ha.
          - apply as_message_array_None, Hm. }
        unfold JSON_stringify. destruct (stringify v) as [t| |e] eqn:Hser.
        -- exists (Invoke (h, AddMessage (AIMessage (Str t)))). split.
           ++ apply dispatched_call, case_other; assumption.
           ++ intros db. reflexivity.
        -- exists (Fail TypeError). split; [apply dispatched_without_text; assumption|].
           intros db. reflexivity.
        -- exists (Fail e). split; [apply dispatched_raised; assumption|].
           intros db. reflexivity.
Qed.

(** [saveContext] is its two steps in order. *)
Lemma saveContext_steps this inputs outputs :
  exists first second,
    InputStep this inputs first
    /\ OutputStep stringify this outputs second
    /\ forall db,
         saveContext stringify this inputs outputs db = (run first ;; run second) db.
Proof.
  assert (Hin : exists first,
             InputStep this inputs first
             /\ forall db,
                  (if key_truthy (inputKey this) && truthy (index inputs (inputKey this))
                   then message ← lift (new_message Human (index inputs (inputKey this)));
                        addMessage (history this) message
                   else mret tt) db = run first db).
  { destruct (key_truthy (inputKey this) && truthy (index inputs (inputKey this))) eqn:Hi.
    - apply guard_true in Hi. unfold new_message.
      destruct (accepts (index inputs (inputKey this))) eqn:Hacc.
      + eexists. split; [apply (input_saved _ _ _ Hi Hacc)|]. intros db. reflexivity.
      + eexists. split; [apply (input_refused _ _ _ Hi Hacc)|]. intros db. reflexivity.
    - apply guard_false in Hi. exists Skip. split; [apply input_left, Hi|].
      intros db. reflexivity. }
  assert (Hout : exists second,
             OutputStep stringify this outputs second
             /\ forall db,
                  (if key_truthy (outputKey this) && truthy (index outputs (outputKey this))
                   then
                     let outputValue := index outputs (outputKey this) in
                     if typeof_string outputValue then
                       message ← lift (new_message AI outputValue);
                       addMessage (history this) message
                     else match as_AIMessage outputValue with
                          | Some message => addMessage (history this) message
                          | None =>
                              match as_message_array outputValue with
                              | Some messages => addMessages (history this) messages
                              | None =>
                                  text ← JSON_stringify stringify outputValue;
                                  message ← lift (new_message AI text);
                                  addMessage (history this) message
                              end
                          end
                   else mret tt) db = run second db).
  { destruct (key_truthy (outputKey this) && truthy (index outputs (outputKey this))) eqn:Ho.
    - apply guard_true in Ho.
      destruct (output_dispatch (history this) (index outputs (outputKey this)))
        as (s & Hs & Heq).
      exists s. split; [|exact Heq].
      destruct Hs as [c Hc|Hother Hser|e Hother Hser].
      + eapply output_saved; eassumption.
      + eapply output_without_text; eassumption.
      + eapply output_not_serializable; eassumption.
    - apply guard_false in Ho. exists Skip. split; [apply output_left, Ho|].
      intros db. reflexivity. }
  destruct Hin as (first & Hfirst & Heq1). destruct Hout as (second & Hsecond & Heq2).
  exists first, second. split; [assumption|]. split; [assumption|].
  intros db. unfold saveContext. rewrite !bind_run, Heq1.
  destruct (run first db) as [[[]|e] db1]; [apply Heq2 | reflexivity].
Qed.

Lemma input_step_calls this inputs first :
  InputStep this inputs first ->
  Forall (fun hc => hc.1 = history this /\ is_append hc.2 = true) (calls_of first).
Proof. intros []; simpl; repeat constructor. Qed.

Lemma output_step_calls this outputs second :
  OutputStep stringify this outputs second ->
  Forall (fun hc => hc.1 = history this /\ is_append hc.2 = true) (calls_of second).
Proof.
  intros [v c Hp Hc| | |]; simpl; repeat constructor.
  simpl. eapply output_case_append, Hc.
Qed.



End SaveContext.

(** ** Running recorded calls *)

Lemma appended_app h cs cs' : appended h (cs ++ cs') = appended h cs ++ appended h cs'.
Proof.
  induction cs as [|hc cs IH]; simpl; [reflexivity|].
  rewrite IH, app_assoc. reflexivity.
Qed.

Lemma appended_elsewhere h h' cs :
  Forall (fun hc => hc.1 = h /\ is_append hc.2 = true) cs ->
  h' <> h -> appended h' cs = [].
Proof.
  induction 1 as [|hc cs [Hh _] _ IH]; intros Hne; simpl; [reflexivity|].
  rewrite IH by assumption. rewrite decide_False by congruence. reflexivity.
Qed.

Lemma no_fault db : faults db = [] -> next_fault db = None.
Proof. unfold next_fault. intros ->. reflexivity. Qed.

Lemma falsy_or_unset_skipped key record :
  FalsyOrUnset key record -> Skipped key record.
Proof.
  intros [->|[->|(k & v & -> & Hr & Hv)]] v' (k' & Hk & Hne & Hr' & Hv').
  - discriminate.
  - injection Hk as <-. contradiction.
  - injection Hk as <-. unfold index in Hr'. simpl in Hr'. rewrite Hr in Hr'.
    congruence.
Qed.

Lemma grown_twice (h h' : PostgresChatMessageHistory) (l a b : list BaseMessage) :
  (l ++ (if decide (h' = h) then a else [])) ++ (if decide (h' = h) then b else [])
  = l ++ (if decide (h' = h) then a ++ b else []).
Proof.
  destruct (decide (h' = h)); rewrite <- app_assoc; reflexivity.
Qed.

(** Whether it succeeds or fails, an append call leaves every log with what
    it had, and adds to the log of its own session only. *)
Lemma perform_append_any hc db :
  is_append hc.2 = true ->
  exists added,
    forall h',
      log (perform hc db).2 h'
      = log db h' ++ (if decide (h' = hc.1) then added else []).
Proof.
  intros Happ. destruct (next_fault db) as [e|] eqn:Hf.
  - destruct (perform_append_failure hc db e Happ Hf) as (db' & -> & _ & _ & Hlog).
    exists []. intros h'. simpl. rewrite Hlog.
    destruct (decide (h' = hc.1)); rewrite app_nil_r; reflexivity.
  - destruct (perform_append hc db Happ Hf) as (db' & -> & _ & _ & Hlog).
    exists (appended_by hc.2). exact Hlog.
Qed.

(** One step on a store without faults. *)
Lemma run_quiet s db :
  faults db = [] ->
  Forall (fun hc => is_append hc.2 = true) (calls_of s) ->
  exists db',
    run s db = (outcome s, db')
    /\ calls db' = calls db ++ calls_of s
    /\ faults db' = []
    /\ forall h', log db' h' = log db h' ++ appended h' (calls_of s).
Proof.
  intros Hf Happ. destruct s as [|hc|e]; simpl.
  - exists db. rewrite app_nil_r. repeat split; try assumption.
    intros h'. rewrite app_nil_r. reflexivity.
  - inversion Happ as [|? ? Hhc _]; subst.
    destruct (perform_append hc db Hhc (no_fault _ Hf))
      as (db' & Hrun & Hcalls & Hfaults & Hlog).
    exists db'. rewrite Hf in Hfaults. repeat split; try assumption.
    intros h'. rewrite Hlog, app_nil_r. reflexivity.
  - exists db. rewrite app_nil_r. repeat split; try assumption.
    intros h'. rewrite app_nil_r. reflexivity.
Qed.

(** Two steps in a row on a store without faults. *)
Lemma steps_quiet first second db :
  faults db = [] ->
  Forall (fun hc => is_append hc.2 = true) (calls_of first) ->
  Forall (fun hc => is_append hc.2 = true) (calls_of second) ->
  exists db',
    (run first ;; run second) db = (result first second, db')
    /\ calls db' = calls db ++ made first second
    /\ faults db' = []
    /\ forall h', log db' h' = log db h' ++ appended h' (made first second).
Proof.
  intros Hf H1 H2.
  destruct (run_quiet first db Hf H1) as (db1 & Hrun1 & Hcalls1 & Hf1 & Hlog1).
  destruct (run_quiet second db1 Hf1 H2) as (db2 & Hrun2 & Hcalls2 & Hf2 & Hlog2).
  rewrite bind_run, Hrun1.
  destruct first as [|hc1|e1]; simpl in *.
  - exists db2. rewrite Hrun2. split; [destruct second; reflexivity|].
    rewrite app_nil_r in Hcalls1. split; [congruence|]. split; [assumption|].
    intros h'. rewrite Hlog2, Hlog1, app_nil_r. reflexivity.
  - exists db2. rewrite Hrun2. split; [destruct second; reflexivity|].
    split; [rewrite Hcalls2, Hcalls1, <- app_assoc; reflexivity|].
    split; [assumption|].
    intros h'. rewrite Hlog2, Hlog1, app_nil_r, <- app_assoc. reflexivity.
  - exists db1. split; [reflexivity|]. repeat split; assumption.
Qed.

(** One step, whatever the store answers. *)
Lemma run_any h s db :
  Forall (fun hc => hc.1 = h /\ is_append hc.2 = true) (calls_of s) ->
  exists added made,
    (forall h',
       log (run s db).2 h' = log db h' ++ (if decide (h' = h) then added else []))
    /\ calls (run s db).2 = calls db ++ made
    /\ Forall (fun hc => hc.1 = h /\ is_append hc.2 = true) made
    /\ (length made <= 1)%nat.
Proof.
  intros Hs. destruct s as [|hc|e]; simpl.
  - exists [], []. rewrite app_nil_r.
    split; [|split; [reflexivity|split; [constructor | simpl; lia]]].
    intros h'. destruct (decide (h' = h)); rewrite app_nil_r; reflexivity.
  - inversion Hs as [|? ? [Hh Happ] _]; subst.
    destruct (perform_append_any hc db Happ) as (added & Hlog).
    exists added, [hc]. split; [exact Hlog|]. split; [apply perform_calls|].
    split; [repeat constructor; assumption | simpl; lia].
  - exists [], []. rewrite app_nil_r.
    split; [|split; [reflexivity|split; [constructor | simpl; lia]]].
    intros h'. destruct (decide (h' = h)); rewrite app_nil_r; reflexivity.
Qed.

(** Two steps in a row, whatever the store answers. *)
Lemma steps_any h first second db :
  Forall (fun hc => hc.1 = h /\ is_append hc.2 = true) (calls_of first) ->
  Forall (fun hc => hc.1 = h /\ is_append hc.2 = true) (calls_of second) ->
  exists added made,
    (forall h',
       log ((run first ;; run second) db).2 h'
       = log db h' ++ (if decide (h' = h) then added else []))
    /\ calls ((run first ;; run second) db).2 = calls db ++ made
    /\ Forall (fun hc => hc.1 = h /\ is_append hc.2 = true) made
    /\ (length made <= 2)%nat.
Proof.
  intros H1 H2.
  destruct (run_any h first db H1) as (a1 & made1 & Hlog1 & Hcalls1 & Hmade1 & Hlen1).
  rewrite bind_run.
  destruct (run first db) as [[[]|e] db1]; simpl in Hlog1, Hcalls1.
  - destruct (run_any h second db1 H2) as (a2 & made2 & Hlog2 & Hcalls2 & Hmade2 & Hlen2).
    exists (a1 ++ a2), (made1 ++ made2). split; [|split; [|split]].
    + intros h'. rewrite Hlog2, Hlog1. apply grown_twice.
    + rewrite Hcalls2, Hcalls1, <- app_assoc. reflexivity.
    + apply Forall_app. split; assumption.
    + rewrite length_app. lia.
  - exists a1, made1. simpl. split; [exact Hlog1|]. split; [exact Hcalls1|].
    split; [assumption | lia].
Qed.

(** [Present key record v], for a concrete record and key [k]. *)
Ltac present_at k :=
  exists k%string;
  split; [first [reflexivity | eassumption]|];
  split; [discriminate|];
  split; [first [reflexivity | eassumption | vm_compute; reflexivity]|];
  first [reflexivity | eassumption].

Section Adapter.

Variable stringify : Value -> JSON.Stringified.

Lemma made_appends this inputs outputs first second :
  InputStep this inputs first ->
  OutputStep stringify this outputs second ->
  Forall (fun hc => hc.1 = history this /\ is_append hc.2 = true) (made first second).
Proof.
  intros Hin Hout. pose proof (input_step_calls _ _ _ Hin) as H1.
  pose proof (output_step_calls _ _ _ _ Hout) as H2.
  destruct first; [assumption | apply Forall_app; split; assumption | constructor].
Qed.

(** On a store without faults [saveContext] makes the calls of its two
    steps in order, up to the first step that throws; every log grows by
    what those calls append to it. *)
Lemma saveContext_run this inputs outputs db :
  faults db = [] ->
  exists db' first second,
    InputStep this inputs first
    /\ OutputStep stringify this outputs second
    /\ saveContext stringify this inputs outputs db = (result first second, db')
    /\ calls db' = calls db ++ made first second
    /\ faults db' = []
    /\ forall h', log db' h' = log db h' ++ appended h' (made first second).
Proof.
  intros Hf.
  destruct (saveContext_steps stringify this inputs outputs)
    as (first & second & Hin & Hout & Hsteps).
  destruct (steps_quiet first second db Hf) as (db' & Hrun & Hrest).
  { eapply Forall_impl; [apply (input_step_calls _ _ _ Hin)|]. simpl. tauto. }
  { eapply Forall_impl; [apply (output_step_calls _ _ _ _ Hout)|]. simpl. tauto. }
  exists db', first, second. rewrite Hsteps. auto.
Qed.

Lemma input_step_accepted this inputs first :
  InputAccepted this inputs ->
  InputStep this inputs first ->
  InputHalf this inputs (calls_of first) /\ outcome first = Return tt.
Proof.
  intros Hacc [v Hv Ha|v Hv Ha|Hskip]; simpl.
  - split; [apply input_appended; assumption | reflexivity].
  - rewrite (Hacc v Hv) in Ha. discriminate.
  - split; [apply input_skipped; assumption | reflexivity].
Qed.



Lemma input_half_present this inputs first v :
  Present (inputKey this) inputs v ->
  InputHalf this inputs first ->
  first = [(history this, AddMessage (HumanMessage v))].
Proof.
  intros Hv [v' Hv' _|Hskip]; [|exfalso; apply (Hskip v), Hv].
  rewrite (present_unique _ _ _ _ Hv Hv'). reflexivity.
Qed.




(** The second step, for an output present with its case. *)
Lemma output_step_present this outputs second v c :
  Present (outputKey this) outputs v ->
  OutputCase stringify v c ->
  OutputStep stringify this outputs second ->
  second = Invoke (history this, c).
Proof.
  intros Hv Hc [v' c' Hv' Hc'|v' Hv' Hother Hser|v' e Hv' Hother Hser|Hskip].
  - rewrite <- (present_unique _ _ _ _ Hv Hv') in Hc'.
    rewrite (output_case_unique _ _ _ _ Hc Hc'). reflexivity.
  - rewrite <- (present_unique _ _ _ _ Hv Hv') in Hother, Hser.
    destruct (output_case_not_other _ _ _ Hc Hother) as [t Ht]. congruence.
  - rewrite <- (present_unique _ _ _ _ Hv Hv') in Hother, Hser.
    destruct (output_case_not_other _ _ _ Hc Hother) as [t Ht]. congruence.
  - exfalso. apply (Hskip v), Hv.
Qed.

(** The first step, for an input present and accepted. *)
Lemma input_step_present this inputs first v :
  Present (inputKey this) inputs v ->
  InputStep this inputs first ->
  first = if accepts v then Invoke (history this, AddMessage (HumanMessage v))
          else Fail TypeError.
Proof.
  intros Hv [v' Hv' Ha|v' Hv' Ha|Hskip].
  - rewrite <- (present_unique _ _ _ _ Hv Hv') in Ha |- *. rewrite Ha. reflexivity.
  - rewrite <- (present_unique _ _ _ _ Hv Hv') in Ha. rewrite Ha. reflexivity.
  - exfalso. apply (Hskip v), Hv.
Qed.

Lemma input_step_skipped this inputs first :
  Skipped (inputKey this) inputs -> InputStep this inputs first -> first = Skip.
Proof.
  intros Hskip [v Hv _|v Hv _|_]; [exfalso; apply (Hskip v), Hv.. | reflexivity].
Qed.

Lemma output_step_skipped this outputs second :
  Skipped (outputKey this) outputs ->
  OutputStep stringify this outputs second -> second = Skip.
Proof.
  intros Hskip [v c Hv _|v Hv _ _|v e Hv _ _|_];
    [exfalso; apply (Hskip v), Hv.. | reflexivity].
Qed.

(** The same, when the output is present with its case and the input step
    does not throw. *)
Lemma saveContext_output_run this inputs outputs db v c :
  Present (outputKey this) outputs v ->
  OutputCase stringify v c ->
  InputAccepted this inputs ->
  faults db = [] ->
  exists db' first,
    saveContext stringify this inputs outputs db = (Return tt, db')
    /\ InputHalf this inputs first
    /\ calls db' = calls db ++ first ++ [(history this, c)]
    /\ faults db' = []
    /\ log db' (history this)
       = log db (history this) ++ appended (history this) first ++ appended_by c.
Proof.
  intros Hv Hc Hia Hf.
  destruct (saveContext_run this inputs outputs db Hf)
    as (db' & first & second & Hin & Hout & Hrun & Hcalls & Hf' & Hlog).
  destruct (input_step_accepted _ _ _ Hia Hin) as [Hfirst Ho1].
  rewrite (output_step_present _ _ _ _ _ Hv Hc Hout) in *.
  exists db', (calls_of first).
  assert (Hmade : made first (Invoke (history this, c))
                  = calls_of first ++ [(history this, c)])
    by (destruct first; [reflexivity | reflexivity | discriminate]).
  assert (Hres : result first (Invoke (history this, c)) = Return tt)
    by (destruct first; try discriminate; reflexivity).
  rewrite Hmade in Hcalls, Hlog. rewrite Hres in Hrun.
  repeat split; try assumption.
  rewrite Hlog, appended_app. simpl. rewrite decide_True by reflexivity.
  rewrite app_nil_r. reflexivity.
Qed.

(** A list of turns on a store without faults: the calls made, up to the
    first [saveContext] that throws, and the logs grown by them. *)
Lemma saveTurns_quiet this turns : forall db,
  faults db = [] ->
  exists o db' new,
    saveTurns stringify this turns db = (o, db')
    /\ calls db' = calls db ++ new
    /\ faults db' = []
    /\ Forall (fun hc => hc.1 = history this /\ is_append hc.2 = true) new
    /\ forall h', log db' h' = log db h' ++ appended h' new.
Proof.
  induction turns as [|[inputs outputs] turns IH]; intros db Hf.
  - exists (Return tt), db, []. simpl. rewrite app_nil_r.
    split; [reflexivity|]. split; [reflexivity|]. split; [assumption|].
    split; [constructor|]. intros h'. rewrite app_nil_r. reflexivity.
  - destruct (saveContext_run this inputs outputs db Hf)
      as (db1 & first & second & Hin & Hout & Hrun & Hcalls & Hf1 & Hlog).
    pose proof (made_appends _ _ _ _ _ Hin Hout) as Hmade.
    cbn [saveTurns]. rewrite bind_run, Hrun.
    destruct (result first second) as [[]|e].
    + destruct (IH db1 Hf1) as (o & db2 & new & Hrun2 & Hcalls2 & Hf2 & Hnew & Hlog2).
      exists o, db2, (made first second ++ new).
      split; [exact Hrun2|]. split; [rewrite Hcalls2, Hcalls, <- app_assoc; reflexivity|].
      split; [assumption|]. split; [apply Forall_app; split; assumption|].
      intros h'. rewrite Hlog2, Hlog, appended_app, <- app_assoc. reflexivity.
    + exists (Throw e), db1, (made first second). auto.
Qed.

Lemma loadMemoryVariables_run this values db :
  next_fault db = None ->
  exists db',
    loadMemoryVariables this values db
    = (Return {[ memoryKey this := Array (Instance <$> log db (history this)) ]}, db')
    /\ calls db' = calls db ++ [(history this, GetMessages)]
    /\ faults db' = tail (faults db)
    /\ forall h', log db' h' = log db h'.
Proof.
  intros Hf. destruct (getMessages_run (history this) db Hf) as (db' & Hrun & Hrest).
  exists db'. split; [|assumption].
  unfold loadMemoryVariables. rewrite bind_run, Hrun. reflexivity.
Qed.

Lemma saveContext_any this inputs outputs db :
  exists added made,
    (forall h',
       log (saveContext stringify this inputs outputs db).2 h'
       = log db h' ++ (if decide (h' = history this) then added else []))
    /\ calls (saveContext stringify this inputs outputs db).2 = calls db ++ made
    /\ Forall (fun hc => hc.1 = history this /\ is_append hc.2 = true) made
    /\ (length made <= 2)%nat.
Proof.
  destruct (saveContext_steps stringify this inputs outputs)
    as (first & second & Hin & Hout & Hsteps).
  rewrite Hsteps. apply steps_any.
  - apply (input_step_calls _ _ _ Hin).
  - apply (output_step_calls _ _ _ _ Hout).
Qed.

Lemma saveTurns_any this turns : forall db,
  exists added made,
    (forall h',
       log (saveTurns stringify this turns db).2 h'
       = log db h' ++ (if decide (h' = history this) then added else []))
    /\ calls (saveTurns stringify this turns db).2 = calls db ++ made
    /\ Forall (fun hc => hc.1 = history this /\ is_append hc.2 = true) made
    /\ (length made <= 2 * length turns)%nat.
Proof.
  induction turns as [|[inputs outputs] turns IH]; intros db.
  - exists [], []. simpl. rewrite app_nil_r. repeat split; [|constructor|lia].
    intros h'. destruct (decide (h' = history this)); rewrite app_nil_r; reflexivity.
  - destruct (saveContext_any this inputs outputs db)
      as (a1 & made1 & Hlog1 & Hcalls1 & Hmade1 & Hlen1).
    cbn [saveTurns]. unfold mbind, eff_bind.
    destruct (saveContext stringify this inputs outputs db) as [[[]|e] db1];
      simpl in Hlog1, Hcalls1.
    + destruct (IH db1) as (a2 & made2 & Hlog2 & Hcalls2 & Hmade2 & Hlen2).
      exists (a1 ++ a2), (made1 ++ made2). split; [|split; [|split]].
      * intros h'. rewrite Hlog2, Hlog1. apply grown_twice.
      * rewrite Hcalls2, Hcalls1, <- app_assoc. reflexivity.
      * apply Forall_app. split; assumption.
      * rewrite length_app. simpl. lia.
    + exists a1, made1. simpl. split; [exact Hlog1|]. split; [exact Hcalls1|].
      split; [assumption | lia].
Qed.

End Adapter.


(** * Properties of the specification *)

Section Properties.

Variable stringify : Value -> JSON.Stringified.



(** C2. When the input step does not throw, an AI message passed as
    [outputs[outputKey]] is handed to the store as it is;
    [loadMemoryVariables] then returns it as the last message of the
    history, so its tool-call metadata is the one it was given. *)
Theorem tool_calls_round_trip this inputs outputs values db m :
  InputAccepted this inputs ->
  class_of m = AI ->
  Present (outputKey this) outputs (Instance m) ->
  faults db = [] ->
  exists db' db'' first loaded,
    saveContext stringify this inputs outputs db = (Return tt, db')
    /\ calls db' = calls db ++ first ++ [(history this, AddMessage m)]
    /\ loadMemoryVariables this values db'
       = (Return {[ memoryKey this := Array (Instance <$> loaded) ]}, db'')
    /\ loaded = log db (history this) ++ appended (history this) first ++ [m]
    /\ last loaded = Some m
    /\ tool_calls <$> last loaded = Some (tool_calls m).
Proof.
  intros Hia Hai Hv Hf.
  assert (Hc : OutputCase stringify (Instance m) (AddMessage m))
    by (econstructor; [reflexivity | assumption]).
  destruct (saveContext_output_run stringify this inputs outputs db _ _ Hv Hc Hia Hf)
    as (db' & first & Hrun & Hin & Hcalls & Hf' & Hlog).
  destruct (loadMemoryVariables_run this values db' (no_fault _ Hf'))
    as (db'' & Hload & _).
  exists db', db'', first, (log db' (history this)).
  split; [assumption|]. split; [assumption|]. split; [assumption|].
  rewrite Hlog. simpl. split; [reflexivity|].
  rewrite app_assoc, last_snoc. split; reflexivity.
Qed.

(** C3. [supplyData] returns exactly one memory object, fixed by the version
    and the tool-call flag: below 1.1 a [BufferMemory] without window; from
    1.1 on, below 1.4 or with tool calls off, a [BufferWindowMemory] whose
    window is [contextWindowLength]; from 1.4 on with tool calls on, the
    tool-aware memory, without window.  The three conditions exclude one
    another and cover every version and flag. *)
Theorem variant_selected (this : MemoryPostgresChat.Context) db :
  let version := MemoryPostgresChat.typeVersion this in
  let tools := MemoryPostgresChat.supportToolCalls this in
  let handle :=
    {| tableName := MemoryPostgresChat.tableName this; sessionId := MemoryPostgresChat.sessionId this |} in
  exists memory,
    MemoryPostgresChat.supplyData this db = (Return memory, db)
    /\ ((version < 11 # 10)%Q ->
        exists options,
          memory = MemoryPostgresChat.BufferMemory options
          /\ MemoryPostgresChat.k options = None /\ MemoryPostgresChat.window memory = None
          /\ MemoryPostgresChat.chatHistory options = handle)
    /\ ((11 # 10 <= version)%Q -> (version < 14 # 10)%Q \/ tools = false ->
        exists options,
          memory = MemoryPostgresChat.BufferWindowMemory options
          /\ MemoryPostgresChat.window memory = Some (MemoryPostgresChat.contextWindowLength this)
          /\ MemoryPostgresChat.chatHistory options = handle)
    /\ ((14 # 10 <= version)%Q -> tools = true ->
        exists adapter,
          memory = MemoryPostgresChat.ToolAware adapter
          /\ MemoryPostgresChat.window memory = None /\ history adapter = handle)
    /\ ((version < 11 # 10)%Q
        \/ ((11 # 10 <= version)%Q /\ ((version < 14 # 10)%Q \/ tools = false))
        \/ ((14 # 10 <= version)%Q /\ tools = true))
    /\ ~ ((version < 11 # 10)%Q /\ (11 # 10 <= version)%Q)
    /\ ~ ((version < 11 # 10)%Q /\ (14 # 10 <= version)%Q)
    /\ ~ (((version < 14 # 10)%Q \/ tools = false)
          /\ (14 # 10 <= version)%Q /\ tools = true).
Proof.
  intros version tools handle. unfold MemoryPostgresChat.supplyData, MemoryPostgresChat.Qlt_bool.
  fold version tools.
  pose proof (Qle_bool_iff (14 # 10) version) as H14.
  pose proof (Qle_bool_iff (11 # 10) version) as H11.
  assert (Hlt : forall a, (version < a)%Q <-> ~ (a <= version)%Q).
  { intros a. split; [apply Qlt_not_le | apply Qnot_le_lt]. }
  pose proof (Hlt (11 # 10)) as L11. pose proof (Hlt (14 # 10)) as L14.
  assert (Hmono : (14 # 10 <= version)%Q -> (11 # 10 <= version)%Q).
  { intros H. eapply Qle_trans; [|exact H]. discriminate. }
  clear Hlt.
  destruct (Qle_bool (14 # 10) version) eqn:E14;
    destruct (Qle_bool (11 # 10) version) eqn:E11;
    destruct tools eqn:Et; simpl.
  all: eexists; split; [reflexivity|].
  all: repeat match goal with |- _ /\ _ => split end.
  all: first
    [ solve [intros; eexists; repeat split; reflexivity]
    | solve [intuition congruence] ].
Qed.


(** C5. [loadMemoryVariables] reads the whole log of the session and returns
    a record with exactly one entry, [memoryKey] bound to that sequence,
    unfiltered.  Hence after any list of [saveContext] calls it returns the
    earlier messages followed by the messages those calls appended, in the
    order of the appends. *)
Theorem load_returns_whole_log this values turns db :
  faults db = [] ->
  (exists variables db1,
     loadMemoryVariables this values db = (Return variables, db1)
     /\ variables = {[ memoryKey this := Array (Instance <$> log db (history this)) ]}
     /\ size variables = 1%nat
     /\ calls db1 = calls db ++ [(history this, GetMessages)]
     /\ forall h', log db1 h' = log db h')
  /\ (exists o db' new db'',
       saveTurns stringify this turns db = (o, db')
       /\ calls db' = calls db ++ new
       /\ Forall (fun hc => hc.1 = history this /\ is_append hc.2 = true) new
       /\ loadMemoryVariables this values db'
          = (Return {[ memoryKey this :=
                         Array (Instance <$> (log db (history this)
                                              ++ appended (history this) new)) ]},
             db'')).
Proof.
  intros Hf. split.
  - destruct (loadMemoryVariables_run this values db (no_fault _ Hf))
      as (db1 & Hload & Hcalls & _ & Hlog).
    eexists _, db1. split; [exact Hload|]. split; [reflexivity|].
    split; [apply map_size_singleton|]. split; assumption.
  - destruct (saveTurns_quiet stringify this turns db Hf)
      as (o & db' & new & Hrun & Hcalls & Hf' & Hnew & Hlog).
    destruct (loadMemoryVariables_run this values db' (no_fault _ Hf'))
      as (db'' & Hload & _).
    exists o, db', new, db''. rewrite <- Hlog. auto.
Qed.

(** C6. [saveContext] is not atomic: when the append of the input succeeds
    and the append of the output fails with [e], the call throws that same
    [e], each append was attempted once, and the log holds the input message
    and nothing of the output. *)
Theorem failure_after_input_append this inputs outputs db vi vo c e script :
  Present (inputKey this) inputs vi ->
  accepts vi = true ->
  Present (outputKey this) outputs vo ->
  OutputCase stringify vo c ->
  faults db = None :: Some e :: script ->
  exists db',
    saveContext stringify this inputs outputs db = (Throw e, db')
    /\ calls db'
       = calls db ++ [(history this, AddMessage (HumanMessage vi)); (history this, c)]
    /\ faults db' = script
    /\ log db' (history this) = log db (history this) ++ [HumanMessage vi]
    /\ forall h', h' <> history this -> log db' h' = log db h'.
Proof.
  intros Hvi Hacc Hvo Hc Hf.
  destruct (saveContext_steps stringify this inputs outputs)
    as (first & second & Hin & Hout & Hsteps).
  rewrite (input_step_present _ _ _ _ Hvi Hin), Hacc in Hsteps.
  rewrite (output_step_present _ _ _ _ _ _ Hvo Hc Hout) in Hsteps.
  destruct (perform_append (history this, AddMessage (HumanMessage vi)) db eq_refl)
    as (db1 & Hrun1 & Hcalls1 & Hf1 & Hlog1).
  { unfold next_fault. rewrite Hf. reflexivity. }
  rewrite Hf in Hf1. simpl in Hf1.
  destruct (perform_append_failure (history this, c) db1 e) as (db2 & Hrun2 & Hcalls2 & Hf2 & Hlog2).
  { eapply output_case_append, Hc. }
  { unfold next_fault. rewrite Hf1. reflexivity. }
  exists db2. rewrite Hsteps. split; [|split; [|split; [|split]]].
  - rewrite bind_run. simpl. rewrite Hrun1. exact Hrun2.
  - rewrite Hcalls2, Hcalls1, <- app_assoc. reflexivity.
  - rewrite Hf2, Hf1. reflexivity.
  - rewrite Hlog2, Hlog1. simpl. rewrite decide_True by reflexivity. reflexivity.
  - intros h' Hne. rewrite Hlog2, Hlog1. simpl.
    rewrite decide_False by assumption. apply app_nil_r.
Qed.

(** C7. Constructing the adapter without a handle (no argument, or an absent
    or null [chatHistory]) throws the configuration error and makes no call
    on the store; with a handle it returns an adapter on that handle. *)
Theorem constructor_requires_handle input db :
  (input = None \/ (exists i, input = Some i /\ Input.chatHistory i = None) ->
   new input db = (Throw handle_required, db))
  /\ (forall i h, input = Some i -> Input.chatHistory i = Some h ->
      exists memory,
        new input db = (Return memory, db)
        /\ history memory = h /\ chatHistory memory = h
        /\ memoryKey memory = nullish (Input.memoryKey i) "chat_history"%string
        /\ inputKey memory = Some (nullish (Input.inputKey i) "input"%string)
        /\ outputKey memory = Some (nullish (Input.outputKey i) "output"%string)).
Proof.
  split.
  - intros [->|(i & -> & Hh)]; unfold new; simpl; [reflexivity|].
    rewrite Hh. reflexivity.
  - intros i h -> Hh. unfold new. simpl. rewrite Hh.
    eexists. split; [reflexivity|]. simpl.
    destruct (Input.inputKey i), (Input.outputKey i); repeat split.
Qed.

(** C8. [clear] makes one call, the store's [clear] on the adapter's handle;
    afterwards [loadMemoryVariables] returns the empty sequence for that
    session, and the log of every other session is what it was. *)
Theorem clear_is_session_scoped this values db :
  faults db = [] ->
  exists db' db'',
    clear this db = (Return tt, db')
    /\ calls db' = calls db ++ [(history this, Clear)]
    /\ loadMemoryVariables this values db'
       = (Return {[ memoryKey this := Array [] ]}, db'')
    /\ forall h', h' <> history this ->
         log db' h' = log db h' /\ log db'' h' = log db h'.
Proof.
  intros Hf.
  destruct (clear_run (history this) db (no_fault _ Hf))
    as (db' & Hrun & Hcalls & Hf' & Hlog).
  rewrite Hf in Hf'. simpl in Hf'.
  destruct (loadMemoryVariables_run this values db' (no_fault _ Hf'))
    as (db'' & Hload & _ & _ & Hlog').
  exists db', db''. split; [exact Hrun|]. split; [assumption|]. split.
  - rewrite Hload, Hlog, decide_True by reflexivity. reflexivity.
  - intros h' Hne. rewrite Hlog', Hlog, decide_False by assumption. auto.
Qed.

(** C9. A half of the turn whose value is present but falsy (the empty
    string, [null], [0], [false]), or whose key is unset, is skipped: with
    both halves skipped [saveContext] returns without touching the store;
    with one half skipped no call is made for it, so that the calls made
    are those of the other half alone. *)
Theorem falsy_or_unset_is_skipped this inputs outputs db :
  (FalsyOrUnset (inputKey this) inputs ->
   FalsyOrUnset (outputKey this) outputs ->
   saveContext stringify this inputs outputs db = (Return tt, db))
  /\ (FalsyOrUnset (inputKey this) inputs ->
      exists second,
        OutputStep stringify this outputs second
        /\ saveContext stringify this inputs outputs db = run second db
        /\ calls (saveContext stringify this inputs outputs db).2
           = calls db ++ calls_of second)
  /\ (FalsyOrUnset (outputKey this) outputs ->
      exists first,
        InputStep this inputs first
        /\ saveContext stringify this inputs outputs db = run first db
        /\ calls (saveContext stringify this inputs outputs db).2
           = calls db ++ calls_of first)
  /\ truthy (Str EmptyString) = false /\ truthy Null = false
  /\ truthy (Num 0%float) = false /\ truthy (Boolean false) = false.
Proof.
  destruct (saveContext_steps stringify this inputs outputs)
    as (first & second & Hin & Hout & Hsteps).
  rewrite Hsteps. split; [|split; [|split; [|repeat split]]].
  - intros Hi Ho. apply falsy_or_unset_skipped in Hi, Ho.
    rewrite (input_step_skipped _ _ _ Hi Hin), (output_step_skipped _ _ _ _ Ho Hout).
    reflexivity.
  - intros Hi. apply falsy_or_unset_skipped in Hi.
    rewrite (input_step_skipped _ _ _ Hi Hin).
    exists second. split; [assumption|]. split; [reflexivity|].
    destruct second as [|hc|e]; simpl; [symmetry; apply app_nil_r | | symmetry; apply app_nil_r].
    apply perform_calls.
  - intros Ho. apply falsy_or_unset_skipped in Ho.
    rewrite (output_step_skipped _ _ _ _ Ho Hout).
    exists first. split; [assumption|].
    assert (Heq : (run first ;; run Skip) db = run first db).
    { rewrite bind_run. destruct (run first db) as [[[]|e] db1]; reflexivity. }
    rewrite Heq. split; [reflexivity|].
    destruct first as [|hc|e]; simpl; [symmetry; apply app_nil_r | | symmetry; apply app_nil_r].
    apply perform_calls.
Qed.

(** C10. When the input step does not throw, an empty array as
    [outputs[outputKey]] is truthy and takes the sequence case: the call made
    is [addMessages] with no message, the log gains nothing from the output,
    and no call appends an AI message, so that the text fallback is not
    appended. *)
Theorem empty_sequence_appends_nothing this inputs outputs db k :
  InputAccepted this inputs ->
  outputKey this = Some k ->
  k <> EmptyString ->
  outputs !! k = Some (Array []) ->
  faults db = [] ->
  exists db' first,
    saveContext stringify this inputs outputs db = (Return tt, db')
    /\ InputHalf this inputs first
    /\ calls db' = calls db ++ first ++ [(history this, AddMessages [])]
    /\ log db' (history this) = log db (history this) ++ appended (history this) first
    /\ forall hc v, hc ∈ first ++ [(history this, AddMessages [])] ->
         hc.2 <> AddMessage (AIMessage v).
Proof.
  intros Hia Hk Hne Hout Hf.
  assert (Hv : Present (outputKey this) outputs (Array [])).
  { exists k. repeat split; try assumption. unfold index. simpl. rewrite Hout. reflexivity. }
  assert (Hc : OutputCase stringify (Array []) (AddMessages []))
    by (apply (case_sequence _ _ []); reflexivity).
  destruct (saveContext_output_run stringify this inputs outputs db _ _ Hv Hc Hia Hf)
    as (db' & first & Hrun & Hin & Hcalls & _ & Hlog).
  exists db', first. split; [assumption|]. split; [assumption|]. split; [assumption|].
  split; [rewrite Hlog; simpl; rewrite app_nil_r; reflexivity|].
  intros hc v Hel. apply elem_of_app in Hel as [Hel|Hel].
  - destruct Hin as [vi _ _|_].
    + apply list_elem_of_singleton in Hel as ->. discriminate.
    + inversion Hel.
  - apply list_elem_of_singleton in Hel as ->. discriminate.
Qed.

End Properties.

(** ** Presence and acceptance on concrete records *)

Lemma input_accepted_of this inputs v :
  Present (inputKey this) inputs v -> accepts v = true -> InputAccepted this inputs.
Proof.
  intros Hv Ha v' Hv'. rewrite (present_unique _ _ _ _ Hv' Hv). exact Ha.
Qed.

Lemma input_accepted_skipped this inputs :
  Skipped (inputKey this) inputs -> InputAccepted this inputs.
Proof. intros Hskip v Hv. exfalso. apply (Hskip v), Hv. Qed.

Lemma skipped_of key record k :
  key = Some k -> truthy (index record (Some k)) = false -> Skipped key record.
Proof.
  intros -> Hf v (k' & [= <-] & _ & <- & Ht). congruence.
Qed.

(** * The properties on a concrete node *)

Module Witness.
Import Example.

Lemma hello_accepted : InputAccepted memory hello.
Proof.
  apply (input_accepted_of memory hello (Str "Hello")); [present_at "input" | reflexivity].
Defined.

Lemma nothing_accepted : InputAccepted memory ∅.
Proof.
  apply input_accepted_skipped, (skipped_of _ _ "input"); reflexivity.
Defined.

(** A plain object is stored as one AI message holding its JSON text. *)
Example plain_object_saved :
  log (saveContext stringify memory hello plain_output empty_db).2 session
  = [HumanMessage (Str "Hello"); AIMessage (Str "{...}")].
Proof. vm_compute. reflexivity. Qed.

(** An AI message followed by two tool results is stored as three entries. *)
Example sequence_saved :
  log (saveContext stringify memory ∅ sequence_output busy_db).2 session
  = [AIMessage (Str "before"); tool_request; tool_result; tool_result]
  /\ log (saveContext stringify memory ∅ sequence_output busy_db).2 other_session
     = [HumanMessage (Str "earlier")].
Proof. split; vm_compute; reflexivity. Qed.



Lemma tool_calls_round_trip_witness :
  InputAccepted memory hello
  /\ class_of tool_request = AI
  /\ Present (outputKey memory) tool_output (Instance tool_request)
  /\ faults busy_db = []
  /\ exists db' db'' first loaded,
       saveContext stringify memory hello tool_output busy_db = (Return tt, db')
       /\ calls db' = calls busy_db ++ first ++ [(history memory, AddMessage tool_request)]
       /\ loadMemoryVariables memory ∅ db'
          = (Return {[ memoryKey memory := Array (Instance <$> loaded) ]}, db'')
       /\ loaded = log busy_db (history memory)
                   ++ appended (history memory) first ++ [tool_request]
       /\ last loaded = Some tool_request
       /\ tool_calls <$> last loaded = Some (tool_calls tool_request).
Proof.
  assert (H : Present (outputKey memory) tool_output (Instance tool_request))
    by present_at "output".
  split; [exact hello_accepted|]. split; [reflexivity|]. split; [exact H|].
  split; [reflexivity|].
  exact (tool_calls_round_trip stringify memory hello tool_output ∅ busy_db
           tool_request hello_accepted eq_refl H eq_refl).
Defined.

(** With a number as the input, an AI message under the output key is not
    stored: [saveContext] throws, and loading afterwards gives a history
    without the message. *)
Lemma tool_calls_lost_after_numeric_input :
  class_of tool_request = AI
  /\ Present (outputKey memory) tool_output (Instance tool_request)
  /\ faults empty_db = []
  /\ saveContext stringify memory forty_two tool_output empty_db
     = (Throw TypeError, empty_db)
  /\ exists db'',
       loadMemoryVariables memory ∅
         (saveContext stringify memory forty_two tool_output empty_db).2
       = (Return {[ "chat_history"%string := Array [] ]}, db'').
Proof.
  split; [reflexivity|]. split; [present_at "output"|]. split; [reflexivity|].
  split; [reflexivity|]. eexists. vm_compute. reflexivity.
Qed.

Lemma variant_selected_witness :
  (exists adapter,
     MemoryPostgresChat.supplyData (context (14 # 10) true) empty_db
     = (Return (MemoryPostgresChat.ToolAware adapter), empty_db))
  /\ (exists options,
       MemoryPostgresChat.supplyData (context (14 # 10) false) empty_db
       = (Return (MemoryPostgresChat.BufferWindowMemory options), empty_db)
       /\ MemoryPostgresChat.k options = Some 5)
  /\ (exists options,
       MemoryPostgresChat.supplyData (context 1 true) empty_db
       = (Return (MemoryPostgresChat.BufferMemory options), empty_db)
       /\ MemoryPostgresChat.k options = None).
Proof.
  split; [|split].
  - destruct (variant_selected (context (14 # 10) true) empty_db)
      as (memory & Hrun & _ & _ & Htools & _).
    destruct Htools as (adapter & -> & _); [discriminate | reflexivity |].
    exists adapter. exact Hrun.
  - destruct (variant_selected (context (14 # 10) false) empty_db)
      as (memory & Hrun & _ & Hwindow & _).
    destruct Hwindow as (options & -> & Hk & _);
      [discriminate | right; reflexivity |].
    exists options. split; [exact Hrun | exact Hk].
  - destruct (variant_selected (context 1 true) empty_db)
      as (memory & Hrun & Hbuffer & _).
    destruct Hbuffer as (options & -> & Hk & _); [reflexivity|].
    exists options. split; [exact Hrun | exact Hk].
Defined.



Lemma load_returns_whole_log_witness :
  faults busy_db = []
  /\ exists o db' new db'',
       saveTurns stringify memory turns_with_number busy_db = (o, db')
       /\ calls db' = calls busy_db ++ new
       /\ Forall (fun hc => hc.1 = history memory /\ is_append hc.2 = true) new
       /\ loadMemoryVariables memory ∅ db'
          = (Return {[ memoryKey memory :=
                         Array (Instance <$> (log busy_db (history memory)
                                              ++ appended (history memory) new)) ]},
             db'').
Proof.
  split; [reflexivity|].
  exact (proj2 (load_returns_whole_log stringify memory ∅ turns_with_number busy_db
                  eq_refl)).
Defined.

Lemma failure_after_input_append_witness :
  Present (inputKey memory) hello (Str "Hello")
  /\ accepts (Str "Hello") = true
  /\ Present (outputKey memory) hi_there (Str "Hi there")
  /\ OutputCase stringify (Str "Hi there") (AddMessage (AIMessage (Str "Hi there")))
  /\ faults failing_db = [None; Some (MkError "connection terminated")]
  /\ exists db',
       saveContext stringify memory hello hi_there failing_db
       = (Throw (MkError "connection terminated"), db')
       /\ calls db'
          = calls failing_db
            ++ [(history memory, AddMessage (HumanMessage (Str "Hello")));
                (history memory, AddMessage (AIMessage (Str "Hi there")))]
       /\ faults db' = []
       /\ log db' (history memory)
          = log failing_db (history memory) ++ [HumanMessage (Str "Hello")]
       /\ forall h', h' <> history memory -> log db' h' = log failing_db h'.
Proof.
  assert (Hi : Present (inputKey memory) hello (Str "Hello")) by present_at "input".
  assert (Ho : Present (outputKey memory) hi_there (Str "Hi there"))
    by present_at "output".
  assert (Hc : OutputCase stringify (Str "Hi there")
                 (AddMessage (AIMessage (Str "Hi there"))))
    by (econstructor; reflexivity).
  split; [exact Hi|]. split; [reflexivity|]. split; [exact Ho|]. split; [exact Hc|].
  split; [reflexivity|].
  exact (failure_after_input_append stringify memory hello hi_there failing_db
           _ _ _ _ _ Hi eq_refl Ho Hc eq_refl).
Defined.

Lemma constructor_requires_handle_witness :
  new None empty_db = (Throw handle_required, empty_db)
  /\ exists adapter,
       new (Some handle_only) empty_db = (Return adapter, empty_db)
       /\ history adapter = session
       /\ inputKey adapter = Some "input"%string
       /\ outputKey adapter = Some "output"%string.
Proof.
  split.
  - apply (proj1 (constructor_requires_handle None empty_db)). left. reflexivity.
  - destruct (proj2 (constructor_requires_handle (Some handle_only) empty_db)
                handle_only session eq_refl eq_refl)
      as (adapter & Hrun & Hh & _ & _ & Hik & Hok).
    exists adapter. repeat split; assumption.
Defined.

Lemma clear_is_session_scoped_witness :
  faults busy_db = []
  /\ other_session <> history memory
  /\ exists db' db'',
       clear memory busy_db = (Return tt, db')
       /\ loadMemoryVariables memory ∅ db'
          = (Return {[ memoryKey memory := Array [] ]}, db'')
       /\ log db' other_session = [HumanMessage (Str "earlier")].
Proof.
  split; [reflexivity|]. split; [discriminate|].
  destruct (clear_is_session_scoped memory ∅ busy_db eq_refl)
    as (db' & db'' & Hrun & _ & Hload & Hframe).
  exists db', db''. split; [exact Hrun|]. split; [exact Hload|].
  destruct (Hframe other_session) as [-> _]; [discriminate | reflexivity].
Defined.

Lemma falsy_or_unset_is_skipped_witness :
  FalsyOrUnset (inputKey memory) falsy_input
  /\ FalsyOrUnset (outputKey memory) falsy_output
  /\ saveContext stringify memory falsy_input falsy_output busy_db
     = (Return tt, busy_db).
Proof.
  assert (Hi : FalsyOrUnset (inputKey memory) falsy_input).
  { right. right. exists "input"%string, (Str EmptyString). repeat split. }
  assert (Ho : FalsyOrUnset (outputKey memory) falsy_output).
  { right. right. exists "output"%string, (Num 0%float). repeat split. }
  split; [exact Hi|]. split; [exact Ho|].
  exact (proj1 (falsy_or_unset_is_skipped stringify memory falsy_input
                  falsy_output busy_db) Hi Ho).
Defined.

Lemma empty_sequence_appends_nothing_witness :
  InputAccepted memory ∅
  /\ outputKey memory = Some "output"%string
  /\ "output"%string <> EmptyString
  /\ empty_output !! "output"%string = Some (Array [])
  /\ faults busy_db = []
  /\ exists db' first,
       saveContext stringify memory ∅ empty_output busy_db = (Return tt, db')
       /\ InputHalf memory ∅ first
       /\ calls db' = calls busy_db ++ first ++ [(history memory, AddMessages [])]
       /\ log db' (history memory)
          = log busy_db (history memory) ++ appended (history memory) first
       /\ forall hc v, hc ∈ first ++ [(history memory, AddMessages [])] ->
            hc.2 <> AddMessage (AIMessage v).
Proof.
  split; [exact nothing_accepted|]. split; [reflexivity|]. split; [discriminate|].
  split; [reflexivity|]. split; [reflexivity|].
  exact (empty_sequence_appends_nothing stringify memory ∅ empty_output busy_db
           "output" nothing_accepted eq_refl ltac:(discriminate) eq_refl eq_refl).
Defined.

(** With a number as the input, an empty array under the output key leads
    to no call at all: [saveContext] throws before it examines the output. *)
Lemma empty_sequence_unexamined_after_numeric_input :
  outputKey memory = Some "output"%string
  /\ empty_output !! "output"%string = Some (Array [])
  /\ faults busy_db = []
  /\ saveContext stringify memory forty_two empty_output busy_db
     = (Throw TypeError, busy_db)
  /\ (history memory, AddMessages []) ∉
       calls (saveContext stringify memory forty_two empty_output busy_db).2.
Proof.
  split; [reflexivity|]. split; [reflexivity|]. split; [reflexivity|].
  split; [reflexivity|]. simpl. apply not_elem_of_nil.
Qed.

End Witness.

(** * Further properties *)

Section AnyOutcome.

Variable stringify : Value -> JSON.Stringified.

(** X1. Whatever the store answers, any number of [saveContext] calls only
    ever extends the log of the adapter's session: the earlier messages stay
    in place as a prefix, the log of every other session is unchanged, and
    the calls made are appends on the adapter's handle, at most two a turn. *)
Theorem history_is_append_only this turns db :
  exists added made,
    log (saveTurns stringify this turns db).2 (history this)
    = log db (history this) ++ added
    /\ (forall h', h' <> history this ->
        log (saveTurns stringify this turns db).2 h' = log db h')
    /\ calls (saveTurns stringify this turns db).2 = calls db ++ made
    /\ Forall (fun hc => hc.1 = history this /\ is_append hc.2 = true) made
    /\ (length made <= 2 * length turns)%nat.
Proof.
  destruct (saveTurns_any stringify this turns db) as (added & made & Hlog & Hrest).
  exists added, made. split; [|split; [|exact Hrest]].
  - rewrite Hlog, decide_True by reflexivity. reflexivity.
  - intros h' Hne. rewrite Hlog, decide_False by assumption. apply app_nil_r.
Qed.

(** X2. When the append of the input fails, [saveContext] throws the store's
    error as it is and stops: the output is not attempted, whatever it is,
    and no log changes. *)
Theorem failure_of_input_append this inputs outputs db vi e :
  Present (inputKey this) inputs vi ->
  accepts vi = true ->
  next_fault db = Some e ->
  exists db',
    saveContext stringify this inputs outputs db = (Throw e, db')
    /\ calls db' = calls db ++ [(history this, AddMessage (HumanMessage vi))]
    /\ faults db' = tail (faults db)
    /\ forall h', log db' h' = log db h'.
Proof.
  intros Hvi Hacc Hf.
  destruct (saveContext_steps stringify this inputs outputs)
    as (first & second & Hin & _ & Hsteps).
  rewrite (input_step_present _ _ _ _ Hvi Hin), Hacc in Hsteps.
  destruct (perform_append_failure (history this, AddMessage (HumanMessage vi)) db e
              eq_refl Hf) as (db' & Hrun & Hcalls & Hfaults & Hlog).
  exists db'. rewrite Hsteps. split; [|auto].
  rewrite bind_run. simpl. rewrite Hrun. reflexivity.
Qed.

End AnyOutcome.

(** X3. A failure of the store in [loadMemoryVariables] or in [clear] reaches
    the caller as it is, after the one call; a failed [clear] removes
    nothing. *)
Theorem load_and_clear_pass_failures this values db e :
  next_fault db = Some e ->
  (exists db',
     loadMemoryVariables this values db = (Throw e, db')
     /\ calls db' = calls db ++ [(history this, GetMessages)]
     /\ forall h', log db' h' = log db h')
  /\ (exists db',
       clear this db = (Throw e, db')
       /\ calls db' = calls db ++ [(history this, Clear)]
       /\ forall h', log db' h' = log db h').
Proof.
  intros Hf. split.
  - unfold loadMemoryVariables, getMessages. rewrite bind_run.
    rewrite (call_failure _ _ _ _ _ e) by assumption.
    eexists. split; [reflexivity|]. simpl. split; reflexivity.
  - unfold clear, History.clear. rewrite (call_failure _ _ _ _ _ e) by assumption.
    eexists. split; [reflexivity|]. simpl. split; reflexivity.
Qed.

(** ** Keys *)

(** X4. The record [loadMemoryVariables] returns has exactly the keys that
    [memoryKeys] announces. *)
Theorem loaded_keys_are_memoryKeys this values db :
  next_fault db = None ->
  exists variables db',
    loadMemoryVariables this values db = (Return variables, db')
    /\ dom variables = list_to_set (memoryKeys this)
    /\ forall key, key ∈ memoryKeys this <-> is_Some (variables !! key).
Proof.
  intros Hf. destruct (loadMemoryVariables_run this values db Hf) as (db' & Hload & _).
  eexists _, db'. split; [exact Hload|]. split.
  - rewrite dom_singleton_L. unfold memoryKeys. simpl.
    rewrite (right_id_L ∅ (∪)). reflexivity.
  - intros key. unfold memoryKeys. rewrite list_elem_of_singleton. split.
    + intros ->. rewrite lookup_singleton_eq. eauto.
    + intros [v Hv]. apply lookup_singleton_Some in Hv as [<- _]. reflexivity.
Qed.

Section Keys.

Variable stringify : Value -> JSON.Stringified.

(** X5. [saveContext] reads the two records only under [inputKey] and
    [outputKey]: records that agree there give the same result, whatever
    else they hold. *)
Theorem only_the_keys_are_read this inputs inputs' outputs outputs' db :
  (forall k, inputKey this = Some k -> inputs !! k = inputs' !! k) ->
  (forall k, outputKey this = Some k -> outputs !! k = outputs' !! k) ->
  saveContext stringify this inputs outputs db
  = saveContext stringify this inputs' outputs' db.
Proof.
  intros Hi Ho. unfold saveContext.
  assert (Hin : key_truthy (inputKey this) = true ->
                index inputs (inputKey this) = index inputs' (inputKey this)).
  { destruct (inputKey this) as [k|]; [|discriminate].
    intros _. unfold index. simpl. rewrite (Hi k eq_refl). reflexivity. }
  assert (Hout : key_truthy (outputKey this) = true ->
                 index outputs (outputKey this) = index outputs' (outputKey this)).
  { destruct (outputKey this) as [k|]; [|discriminate].
    intros _. unfold index. simpl. rewrite (Ho k eq_refl). reflexivity. }
  destruct (key_truthy (inputKey this)); destruct (key_truthy (outputKey this));
    simpl; rewrite ?Hin, ?Hout by reflexivity; reflexivity.
Qed.

(** X6. The constructor keeps a key overridden with the empty string, and
    the adapter it returns then never saves that half of a turn: with the
    input key empty the inputs are ignored, with the output key empty the
    outputs are, and with both empty [saveContext] does nothing at all. *)
Theorem empty_key_disables_saving i h inputs outputs db :
  Input.chatHistory i = Some h ->
  exists memory,
    new (Some i) db = (Return memory, db)
    /\ (Input.inputKey i = Some EmptyString ->
        forall db1,
          saveContext stringify memory inputs outputs db1
          = saveContext stringify memory ∅ outputs db1)
    /\ (Input.outputKey i = Some EmptyString ->
        forall db1,
          saveContext stringify memory inputs outputs db1
          = saveContext stringify memory inputs ∅ db1)
    /\ (Input.inputKey i = Some EmptyString ->
        Input.outputKey i = Some EmptyString ->
        forall db1,
          saveContext stringify memory inputs outputs db1 = (Return tt, db1)).
Proof.
  intros Hh. unfold new. simpl. rewrite Hh.
  eexists. split; [reflexivity|]. unfold saveContext. simpl.
  split; [|split].
  - intros -> db1. reflexivity.
  - intros -> db1. reflexivity.
  - intros -> -> db1. reflexivity.
Qed.

End Keys.

(** ** The supplied memory *)

Lemma supplyData_tool_aware (this : MemoryPostgresChat.Context) db :
  (14 # 10 <= MemoryPostgresChat.typeVersion this)%Q ->
  MemoryPostgresChat.supportToolCalls this = true ->
  MemoryPostgresChat.supplyData this db
  = (Return (MemoryPostgresChat.ToolAware
               {| history := {| tableName := MemoryPostgresChat.tableName this;
                                sessionId := MemoryPostgresChat.sessionId this |};
                  memoryKey := "chat_history";
                  inputKey := Some "input"%string;
                  outputKey := Some "output"%string;
                  returnMessages := true;
                  chatHistory := {| tableName := MemoryPostgresChat.tableName this;
                                    sessionId := MemoryPostgresChat.sessionId this |} |}),
     db).
Proof.
  intros Hv Ht. apply Qle_bool_iff in Hv.
  unfold MemoryPostgresChat.supplyData. rewrite Hv, Ht. reflexivity.
Qed.

Lemma present_singleton (key : string) (s : string) :
  key <> EmptyString -> s <> EmptyString ->
  Present (Some key) {[ key := Str s ]} (Str s).
Proof.
  intros Hk Hs. exists key. split; [reflexivity|]. split; [assumption|].
  split; [unfold index; simpl; rewrite lookup_singleton_eq; reflexivity|].
  simpl. apply negb_true_iff, String.eqb_neq, Hs.
Qed.

Section Supplied.

Variable stringify : Value -> JSON.Stringified.

(** X9. From version 1.4 on with tool calls supported, the memory that
    [supplyData] returns is the tool-aware adapter on the session
    [(tableName, sessionId)], and on an empty session saving a turn of two
    non-empty strings and loading gives [chat_history] as the human message
    followed by the AI message. *)
Theorem supplied_memory_round_trip (this : MemoryPostgresChat.Context) db x y :
  (14 # 10 <= MemoryPostgresChat.typeVersion this)%Q ->
  MemoryPostgresChat.supportToolCalls this = true ->
  x <> EmptyString -> y <> EmptyString ->
  faults db = [] ->
  log db {| tableName := MemoryPostgresChat.tableName this;
            sessionId := MemoryPostgresChat.sessionId this |} = [] ->
  exists adapter db',
    MemoryPostgresChat.supplyData this db
    = (Return (MemoryPostgresChat.ToolAware adapter), db)
    /\ (saveContext stringify adapter {[ "input"%string := Str x ]}
                    {[ "output"%string := Str y ]} ;;
        loadMemoryVariables adapter ∅) db
       = (Return {[ "chat_history"%string :=
                      Array [Instance (HumanMessage (Str x));
                             Instance (AIMessage (Str y))] ]}, db').
Proof.
  intros Hv Ht Hx Hy Hf Hempty.
  pose proof (supplyData_tool_aware this db Hv Ht) as Hsupply.
  match type of Hsupply with
  | _ = (Return (MemoryPostgresChat.ToolAware ?a), _) => set (adapter := a) in *
  end.
  assert (Hpi : Present (inputKey adapter) {[ "input"%string := Str x ]} (Str x))
    by (apply present_singleton; [discriminate | assumption]).
  assert (Hpo : Present (outputKey adapter) {[ "output"%string := Str y ]} (Str y))
    by (apply present_singleton; [discriminate | assumption]).
  assert (Hc : OutputCase stringify (Str y) (AddMessage (AIMessage (Str y))))
    by (econstructor; reflexivity).
  destruct (saveContext_output_run stringify adapter {[ "input"%string := Str x ]}
              {[ "output"%string := Str y ]} db _ _ Hpo Hc
              (input_accepted_of _ _ _ Hpi eq_refl) Hf)
    as (db1 & first & Hrun & Hin & _ & Hf1 & Hlog).
  apply (input_half_present _ _ _ _ Hpi) in Hin. subst first.
  destruct (loadMemoryVariables_run adapter ∅ db1 (no_fault _ Hf1)) as (db2 & Hload & _).
  exists adapter, db2. split; [exact Hsupply|].
  rewrite bind_run, Hrun, Hload, Hlog. simpl. rewrite Hempty. simpl.
  rewrite !decide_True by reflexivity. reflexivity.
Qed.

End Supplied.

(** ** Fields and versions *)

(** X12. The field [supportToolCalls] is displayed on exactly the versions
    on which it changes the memory [supplyData] returns: where the field is
    hidden, a stored value of it has no effect. *)
Theorem tool_flag_displayed_iff_effective
    (on off : MemoryPostgresChat.Context) db :
  MemoryPostgresChat.typeVersion on = MemoryPostgresChat.typeVersion off ->
  MemoryPostgresChat.tableName on = MemoryPostgresChat.tableName off ->
  MemoryPostgresChat.sessionId on = MemoryPostgresChat.sessionId off ->
  MemoryPostgresChat.contextWindowLength on
  = MemoryPostgresChat.contextWindowLength off ->
  MemoryPostgresChat.supportToolCalls on = true ->
  MemoryPostgresChat.supportToolCalls off = false ->
  Description.displayed Description.supportToolCalls (MemoryPostgresChat.typeVersion on)
  = true
  <-> MemoryPostgresChat.supplyData on db <> MemoryPostgresChat.supplyData off db.
Proof.
  destruct on as [v1 t1 s1 f1 k1], off as [v2 t2 s2 f2 k2]. simpl.
  intros <- <- <- <- -> ->.
  unfold Description.displayed, Description.supportToolCalls, Description.holds.
  unfold MemoryPostgresChat.supplyData, MemoryPostgresChat.Qlt_bool. simpl.
  destruct (Qle_bool (14 # 10) v1); simpl.
  - split; [intros _|reflexivity].
    destruct (Qle_bool (11 # 10) v1); simpl; discriminate.
  - split; [discriminate|]. intros H. exfalso. apply H. reflexivity.
Qed.

(** X13. The window length changes the memory [supplyData] returns exactly
    when its field is displayed and the tool-aware adapter is not selected:
    below 1.1 it is hidden and unused, and from 1.4 on with tool calls
    supported it is displayed and yet ignored. *)
Theorem window_length_effective_when_windowed
    (one other : MemoryPostgresChat.Context) db :
  MemoryPostgresChat.typeVersion one = MemoryPostgresChat.typeVersion other ->
  MemoryPostgresChat.tableName one = MemoryPostgresChat.tableName other ->
  MemoryPostgresChat.sessionId one = MemoryPostgresChat.sessionId other ->
  MemoryPostgresChat.supportToolCalls one = MemoryPostgresChat.supportToolCalls other ->
  MemoryPostgresChat.contextWindowLength one
  <> MemoryPostgresChat.contextWindowLength other ->
  MemoryPostgresChat.supplyData one db <> MemoryPostgresChat.supplyData other db
  <-> Description.displayed Description.contextWindowLength
        (MemoryPostgresChat.typeVersion one) = true
      /\ ~ ((14 # 10 <= MemoryPostgresChat.typeVersion one)%Q
            /\ MemoryPostgresChat.supportToolCalls one = true).
Proof.
  destruct one as [v1 t1 s1 f1 k1], other as [v2 t2 s2 f2 k2]. simpl.
  intros <- <- <- <- Hk.
  unfold Description.displayed, Description.contextWindowLength, Description.holds.
  unfold MemoryPostgresChat.supplyData, MemoryPostgresChat.Qlt_bool. simpl.
  pose proof (Qle_bool_iff (14 # 10) v1) as H14.
  destruct (Qle_bool (14 # 10) v1); destruct (Qle_bool (11 # 10) v1);
    destruct f1; simpl.
  all: split.
  all: try (intros Hne;
            first [ exfalso; apply Hne; reflexivity
                  | split;
                    [ reflexivity
                    | intros [Hle Hf];
                      first [discriminate Hf | apply H14 in Hle; discriminate Hle] ] ]).
  all: intros [Hd Hn];
    first [ discriminate Hd
          | exfalso; apply Hn; split; [apply H14; reflexivity | reflexivity]
          | intros [= Heq]; apply Hk; exact Heq ].
Qed.

(** ** Outputs that fall back to text *)

Lemma not_every_BaseMessage elems x :
  x ∈ elems -> instanceof_BaseMessage x = false ->
  ~ is_sequence (Array elems).
Proof.
  intros Hx Hnot [ms [= ->]].
  apply list_elem_of_fmap in Hx as (m & -> & _). discriminate.
Qed.

Section Fallback.

Variable stringify : Value -> JSON.Stringified.

(** The second step on a value of the fourth case. *)
Lemma output_step_other this outputs second v :
  Present (outputKey this) outputs v ->
  is_other v ->
  OutputStep stringify this outputs second ->
  second = match stringify v with
           | JSON.Text t => Invoke (history this, AddMessage (AIMessage (Str t)))
           | JSON.NoText => Fail TypeError
           | JSON.Raised e => Fail e
           end.
Proof.
  intros Hv Hother [v' c Hv' Hc|v' Hv' _ Hser|v' e Hv' _ Hser|Hskip].
  - rewrite <- (present_unique _ _ _ _ Hv Hv') in Hc.
    destruct (output_case_not_other _ _ _ Hc Hother) as [t Ht]. rewrite Ht.
    rewrite (output_case_unique _ _ _ _ Hc (case_other _ _ t Hother Ht)). reflexivity.
  - rewrite <- (present_unique _ _ _ _ Hv Hv') in Hser. rewrite Hser. reflexivity.
  - rewrite <- (present_unique _ _ _ _ Hv Hv') in Hser. rewrite Hser. reflexivity.
  - exfalso. apply (Hskip v), Hv.
Qed.

(** The output step when the value is in the fourth case and has a text. *)
Lemma saveContext_fallback_run this inputs outputs db v t :
  InputAccepted this inputs ->
  Present (outputKey this) outputs v ->
  is_other v ->
  stringify v = JSON.Text t ->
  faults db = [] ->
  exists db' first,
    saveContext stringify this inputs outputs db = (Return tt, db')
    /\ InputHalf this inputs first
    /\ calls db'
       = calls db ++ first ++ [(history this, AddMessage (AIMessage (Str t)))]
    /\ log db' (history this)
       = log db (history this) ++ appended (history this) first ++ [AIMessage (Str t)].
Proof.
  intros Hia Hv Hother Hser Hf.
  destruct (saveContext_output_run stringify this inputs outputs db v _ Hv
              (case_other _ _ t Hother Hser) Hia Hf)
    as (db' & first & Hrun & Hin & Hcalls & _ & Hlog).
  exists db', first. auto.
Qed.

(** X7. A message that is not an [AIMessage], given as the output on its
    own, is not stored as itself: when the input step does not throw and
    [JSON.stringify] returns a text for the message, what is appended is one
    AI message whose content is that text. *)
Theorem lone_message_is_stringified this inputs outputs db m t :
  InputAccepted this inputs ->
  class_of m <> AI ->
  Present (outputKey this) outputs (Instance m) ->
  stringify (Instance m) = JSON.Text t ->
  faults db = [] ->
  exists db' first,
    saveContext stringify this inputs outputs db = (Return tt, db')
    /\ InputHalf this inputs first
    /\ calls db'
       = calls db ++ first ++ [(history this, AddMessage (AIMessage (Str t)))]
    /\ log db' (history this)
       = log db (history this) ++ appended (history this) first ++ [AIMessage (Str t)]
    /\ last (log db' (history this)) <> Some m.
Proof.
  intros Hia Hcls Hv Hser Hf.
  destruct (saveContext_fallback_run this inputs outputs db (Instance m) t Hia Hv)
    as (db' & first & Hrun & Hin & Hcalls & Hlog); try assumption.
  - split; [|split].
    + intros [s [=]].
    + intros (m' & [= <-] & Hai). contradiction.
    + intros [ms [=]].
  - exists db', first. repeat split; try assumption.
    rewrite Hlog, app_assoc, last_snoc. intros [= Hm]. apply Hcls.
    rewrite <- Hm. reflexivity.
Qed.

(** X8. An array with an element that is not a message is not appended
    element by element: when the input step does not throw and
    [JSON.stringify] returns a text for the array, the whole array is stored
    as one AI message holding that text, and the messages in it are not
    stored as entries. *)
Theorem mixed_array_is_stringified this inputs outputs db elems x t :
  InputAccepted this inputs ->
  x ∈ elems ->
  instanceof_BaseMessage x = false ->
  Present (outputKey this) outputs (Array elems) ->
  stringify (Array elems) = JSON.Text t ->
  faults db = [] ->
  exists db' first,
    saveContext stringify this inputs outputs db = (Return tt, db')
    /\ InputHalf this inputs first
    /\ calls db'
       = calls db ++ first ++ [(history this, AddMessage (AIMessage (Str t)))]
    /\ log db' (history this)
       = log db (history this) ++ appended (history this) first ++ [AIMessage (Str t)].
Proof.
  intros Hia Hx Hnot Hv Hser Hf.
  apply (saveContext_fallback_run this inputs outputs db (Array elems) t Hia Hv);
    try assumption.
  split; [|split].
  - intros [s [=]].
  - intros (m & [=] & _).
  - eapply not_every_BaseMessage; eassumption.
Qed.

(** X16. An output of the fourth case for which [JSON.stringify] returns
    [undefined] (a function, a symbol) or throws (a BigInt, a circular
    structure) is not saved: after the input step, [saveContext] throws, a
    [TypeError] in the first case and what [JSON.stringify] threw in the
    second, and makes no call for the output. *)
Theorem output_without_text_throws this inputs outputs db v :
  InputAccepted this inputs ->
  Present (outputKey this) outputs v ->
  is_other v ->
  faults db = [] ->
  forall e,
    stringify v = JSON.NoText /\ e = TypeError \/ stringify v = JSON.Raised e ->
    exists db' first,
      saveContext stringify this inputs outputs db = (Throw e, db')
      /\ InputHalf this inputs first
      /\ calls db' = calls db ++ first
      /\ log db' (history this) = log db (history this) ++ appended (history this) first.
Proof.
  intros Hia Hv Hother Hf e He.
  destruct (saveContext_run stringify this inputs outputs db Hf)
    as (db' & first & second & Hin & Hout & Hrun & Hcalls & _ & Hlog).
  destruct (input_step_accepted _ _ _ Hia Hin) as [Hfirst Ho1].
  rewrite (output_step_other this outputs second v Hv Hother Hout) in *.
  assert (Hsecond : match stringify v with
                    | JSON.Text t => Invoke (history this, AddMessage (AIMessage (Str t)))
                    | JSON.NoText => Fail TypeError
                    | JSON.Raised e => Fail e
                    end = Fail e).
  { destruct He as [[-> ->]| ->]; reflexivity. }
  rewrite Hsecond in *.
  exists db', (calls_of first).
  assert (Hmade : made first (Fail e) = calls_of first)
    by (destruct first; simpl; [reflexivity | reflexivity | discriminate]).
  assert (Hres : result first (Fail e) = Throw e)
    by (destruct first; try discriminate; reflexivity).
  rewrite Hmade in Hcalls, Hlog. rewrite Hres in Hrun. auto.
Qed.

End Fallback.

(** ** Inputs the message constructor refuses *)

Section Refused.

Variable stringify : Value -> JSON.Stringified.

(** X15. A truthy input that is a number, a boolean, a BigInt or a symbol
    makes [new HumanMessage] throw a [TypeError]: [saveContext] throws it
    before any call on the store, and the output is not examined. *)
Theorem refused_input_stops_saveContext this inputs outputs db v :
  Present (inputKey this) inputs v ->
  (exists n, v = Num n) \/ (exists b, v = Boolean b) \/ (exists z, v = BigInt z)
  \/ v = Symbol ->
  saveContext stringify this inputs outputs db = (Throw TypeError, db).
Proof.
  intros Hv Hkind.
  destruct (saveContext_steps stringify this inputs outputs)
    as (first & second & Hin & _ & Hsteps).
  rewrite Hsteps, (input_step_present _ _ _ _ Hv Hin).
  assert (Hacc : accepts v = false)
    by (destruct Hkind as [[n ->]|[[b ->]|[[z ->]| ->]]]; reflexivity).
  rewrite Hacc. reflexivity.
Qed.

End Refused.

(** ** Sessions *)

Section Sessions.

Variable stringify : Value -> JSON.Stringified.

(** X10. Two tool-aware memories supplied for different session ids do not
    see each other's turns; two supplied for the same table name and session
    id share one history, so what one saves the other loads. *)
Theorem sessions_are_isolated_and_shared
    (one other : MemoryPostgresChat.Context) inputs outputs db :
  (14 # 10 <= MemoryPostgresChat.typeVersion one)%Q ->
  MemoryPostgresChat.supportToolCalls one = true ->
  (14 # 10 <= MemoryPostgresChat.typeVersion other)%Q ->
  MemoryPostgresChat.supportToolCalls other = true ->
  faults db = [] ->
  exists writer reader o db1 db2 new,
    MemoryPostgresChat.supplyData one db
    = (Return (MemoryPostgresChat.ToolAware writer), db)
    /\ MemoryPostgresChat.supplyData other db
       = (Return (MemoryPostgresChat.ToolAware reader), db)
    /\ saveContext stringify writer inputs outputs db = (o, db1)
    /\ calls db1 = calls db ++ new
    /\ loadMemoryVariables reader ∅ db1
       = (Return {[ "chat_history"%string :=
                      Array (Instance <$> log db1 (history reader)) ]}, db2)
    /\ (MemoryPostgresChat.sessionId one <> MemoryPostgresChat.sessionId other ->
        log db1 (history reader) = log db (history reader))
    /\ (MemoryPostgresChat.tableName one = MemoryPostgresChat.tableName other ->
        MemoryPostgresChat.sessionId one = MemoryPostgresChat.sessionId other ->
        log db1 (history reader)
        = log db (history reader) ++ appended (history writer) new).
Proof.
  intros Hv1 Ht1 Hv2 Ht2 Hf.
  pose proof (supplyData_tool_aware one db Hv1 Ht1) as Hone.
  pose proof (supplyData_tool_aware other db Hv2 Ht2) as Hother.
  match type of Hone with
  | _ = (Return (MemoryPostgresChat.ToolAware ?a), _) => set (writer := a) in *
  end.
  match type of Hother with
  | _ = (Return (MemoryPostgresChat.ToolAware ?a), _) => set (reader := a) in *
  end.
  destruct (saveContext_run stringify writer inputs outputs db Hf)
    as (db1 & first & second & Hin & Hout & Hrun & Hcalls & Hf1 & Hlog).
  destruct (loadMemoryVariables_run reader ∅ db1 (no_fault _ Hf1)) as (db2 & Hload & _).
  exists writer, reader, (result first second), db1, db2, (made first second).
  split; [exact Hone|]. split; [exact Hother|]. split; [exact Hrun|].
  split; [exact Hcalls|]. split; [exact Hload|]. split.
  - intros Hne. rewrite Hlog.
    rewrite (appended_elsewhere (history writer)); [apply app_nil_r | |].
    + apply (made_appends stringify _ _ _ _ _ Hin Hout).
    + simpl. intros [= _ Hs]. apply Hne. congruence.
  - intros Ht Hs. rewrite Hlog.
    replace (history reader) with (history writer); [reflexivity|].
    simpl. congruence.
Qed.

(** X11. After a successful [clear], what a [saveContext] call appends is
    all there is: loading returns the messages of the calls it made and none
    of the earlier ones, and the other sessions keep their logs. *)
Theorem clear_then_save this inputs outputs values db :
  faults db = [] ->
  exists o db' db'' new,
    (clear this ;; saveContext stringify this inputs outputs) db = (o, db')
    /\ calls db' = calls db ++ (history this, Clear) :: new
    /\ loadMemoryVariables this values db'
       = (Return {[ memoryKey this :=
                      Array (Instance <$> appended (history this) new) ]}, db'')
    /\ forall h', h' <> history this -> log db' h' = log db h'.
Proof.
  intros Hf.
  destruct (clear_run (history this) db (no_fault _ Hf))
    as (db0 & Hclear & Hcalls0 & Hf0 & Hlog0).
  rewrite Hf in Hf0. simpl in Hf0.
  destruct (saveContext_run stringify this inputs outputs db0 Hf0)
    as (db' & first & second & Hin & Hout & Hrun & Hcalls & Hf' & Hlog).
  destruct (loadMemoryVariables_run this values db' (no_fault _ Hf'))
    as (db'' & Hload & _).
  exists (result first second), db', db'', (made first second).
  split; [|split; [|split]].
  - rewrite bind_run. unfold clear. rewrite Hclear. exact Hrun.
  - rewrite Hcalls, Hcalls0, <- app_assoc. reflexivity.
  - rewrite Hload, Hlog, Hlog0, decide_True by reflexivity. reflexivity.
  - intros h' Hne. rewrite Hlog, Hlog0, decide_False by assumption.
    rewrite (appended_elsewhere (history this)); [apply app_nil_r | | assumption].
    apply (made_appends stringify _ _ _ _ _ Hin Hout).
Qed.

End Sessions.

(** ** Sequences of messages *)

Section Sequences.

Variable stringify : Value -> JSON.Stringified.

(** X14. When the input step does not throw, an array of messages given as
    the output is loaded back as those messages, each as it was given and in
    the order of the array, after the earlier history and the input of the
    turn; the output adds as many entries as the array has elements. *)
Theorem sequence_round_trip this inputs outputs values db ms :
  InputAccepted this inputs ->
  Present (outputKey this) outputs (Array (Instance <$> ms)) ->
  faults db = [] ->
  exists db' db'' first,
    saveContext stringify this inputs outputs db = (Return tt, db')
    /\ InputHalf this inputs first
    /\ calls db' = calls db ++ first ++ [(history this, AddMessages ms)]
    /\ loadMemoryVariables this values db'
       = (Return {[ memoryKey this :=
                      Array (Instance <$> (log db (history this)
                                           ++ appended (history this) first ++ ms)) ]},
          db'')
    /\ length (log db' (history this))
       = (length (log db (history this)) + length first + length ms)%nat.
Proof.
  intros Hia Hv Hf.
  assert (Hc : OutputCase stringify (Array (Instance <$> ms)) (AddMessages ms))
    by (apply (case_sequence _ _ ms); reflexivity).
  destruct (saveContext_output_run stringify this inputs outputs db _ _ Hv Hc Hia Hf)
    as (db' & first & Hrun & Hin & Hcalls & Hf' & Hlog).
  destruct (loadMemoryVariables_run this values db' (no_fault _ Hf'))
    as (db'' & Hload & _).
  exists db', db'', first. split; [assumption|]. split; [assumption|].
  split; [assumption|]. split; [rewrite Hload, Hlog; reflexivity|].
  rewrite Hlog, !length_app. simpl.
  destruct Hin as [v _ _|_]; simpl; [rewrite decide_True by reflexivity; simpl|]; lia.
Qed.

End Sequences.

(** * The further properties on a concrete node *)

Module Concrete.
Import Example.

Lemma history_is_append_only_witness :
  exists added made,
    log (saveTurns stringify memory turns unreachable_db).2 (history memory)
    = log unreachable_db (history memory) ++ added
    /\ (forall h', h' <> history memory ->
        log (saveTurns stringify memory turns unreachable_db).2 h'
        = log unreachable_db h')
    /\ calls (saveTurns stringify memory turns unreachable_db).2
       = calls unreachable_db ++ made
    /\ Forall (fun hc => hc.1 = history memory /\ is_append hc.2 = true) made
    /\ (length made <= 2 * length turns)%nat.
Proof. exact (history_is_append_only stringify memory turns unreachable_db). Defined.

Lemma failure_of_input_append_witness :
  Present (inputKey memory) hello (Str "Hello")
  /\ accepts (Str "Hello") = true
  /\ next_fault unreachable_db = Some (MkError "connection refused")
  /\ exists db',
       saveContext stringify memory hello tool_output unreachable_db
       = (Throw (MkError "connection refused"), db')
       /\ calls db'
          = calls unreachable_db
            ++ [(history memory, AddMessage (HumanMessage (Str "Hello")))]
       /\ faults db' = tail (faults unreachable_db)
       /\ forall h', log db' h' = log unreachable_db h'.
Proof.
  assert (Hi : Present (inputKey memory) hello (Str "Hello")) by present_at "input".
  split; [exact Hi|]. split; [reflexivity|]. split; [reflexivity|].
  exact (failure_of_input_append stringify memory hello tool_output unreachable_db
           _ _ Hi eq_refl eq_refl).
Defined.

Lemma load_and_clear_pass_failures_witness :
  next_fault unreachable_db = Some (MkError "connection refused")
  /\ (exists db',
        loadMemoryVariables memory ∅ unreachable_db
        = (Throw (MkError "connection refused"), db')
        /\ calls db' = calls unreachable_db ++ [(history memory, GetMessages)]
        /\ forall h', log db' h' = log unreachable_db h')
  /\ (exists db',
        clear memory unreachable_db = (Throw (MkError "connection refused"), db')
        /\ calls db' = calls unreachable_db ++ [(history memory, Clear)]
        /\ forall h', log db' h' = log unreachable_db h').
Proof.
  split; [reflexivity|].
  exact (load_and_clear_pass_failures memory ∅ unreachable_db _ eq_refl).
Defined.

Lemma loaded_keys_are_memoryKeys_witness :
  next_fault busy_db = None
  /\ exists variables db',
       loadMemoryVariables memory ∅ busy_db = (Return variables, db')
       /\ dom variables = list_to_set (memoryKeys memory)
       /\ forall key, key ∈ memoryKeys memory <-> is_Some (variables !! key).
Proof.
  split; [reflexivity|].
  exact (loaded_keys_are_memoryKeys memory ∅ busy_db eq_refl).
Defined.

Lemma only_the_keys_are_read_witness :
  (forall k, inputKey memory = Some k -> hello !! k = hello !! k)
  /\ (forall k, outputKey memory = Some k -> hi_there !! k = with_steps !! k)
  /\ saveContext stringify memory hello hi_there busy_db
     = saveContext stringify memory hello with_steps busy_db.
Proof.
  assert (Ho : forall k, outputKey memory = Some k -> hi_there !! k = with_steps !! k).
  { intros k [= <-]. vm_compute. reflexivity. }
  split; [reflexivity|]. split; [exact Ho|].
  exact (only_the_keys_are_read stringify memory hello hello hi_there with_steps
           busy_db (fun _ _ => eq_refl) Ho).
Defined.

Lemma empty_key_disables_saving_witness :
  Input.chatHistory empty_keys = Some session
  /\ exists adapter,
       new (Some empty_keys) busy_db = (Return adapter, busy_db)
       /\ saveContext stringify adapter under_empty_key under_empty_key busy_db
          = (Return tt, busy_db).
Proof.
  split; [reflexivity|].
  destruct (empty_key_disables_saving stringify empty_keys session
              under_empty_key under_empty_key busy_db eq_refl)
    as (adapter & Hnew & _ & _ & Hboth).
  exists adapter. split; [exact Hnew|]. exact (Hboth eq_refl eq_refl busy_db).
Defined.

Lemma lone_tool_output_present :
  Present (outputKey memory) lone_tool_output (Instance tool_result).
Proof. present_at "output". Defined.

Lemma lone_message_is_stringified_witness :
  InputAccepted memory ∅
  /\ class_of tool_result <> AI
  /\ Present (outputKey memory) lone_tool_output (Instance tool_result)
  /\ stringify (Instance tool_result) = JSON.Text "{tool}"
  /\ faults busy_db = []
  /\ exists db' first,
       saveContext stringify memory ∅ lone_tool_output busy_db = (Return tt, db')
       /\ InputHalf memory ∅ first
       /\ calls db'
          = calls busy_db ++ first
            ++ [(history memory, AddMessage (AIMessage (Str "{tool}")))]
       /\ log db' (history memory)
          = log busy_db (history memory) ++ appended (history memory) first
            ++ [AIMessage (Str "{tool}")]
       /\ last (log db' (history memory)) <> Some tool_result.
Proof.
  assert (Hc : class_of tool_result <> AI) by discriminate.
  split; [exact Witness.nothing_accepted|]. split; [exact Hc|].
  split; [exact lone_tool_output_present|]. split; [reflexivity|]. split; [reflexivity|].
  exact (lone_message_is_stringified stringify memory ∅ lone_tool_output busy_db
           tool_result "{tool}" Witness.nothing_accepted Hc lone_tool_output_present
           eq_refl eq_refl).
Defined.

Lemma mixed_output_present :
  Present (outputKey memory) mixed_output (Array [Instance tool_request; Str "done"]).
Proof. present_at "output". Defined.

Lemma mixed_array_is_stringified_witness :
  InputAccepted memory ∅
  /\ Str "done" ∈ [Instance tool_request; Str "done"]
  /\ instanceof_BaseMessage (Str "done") = false
  /\ Present (outputKey memory) mixed_output (Array [Instance tool_request; Str "done"])
  /\ stringify (Array [Instance tool_request; Str "done"]) = JSON.Text "[...]"
  /\ faults busy_db = []
  /\ exists db' first,
       saveContext stringify memory ∅ mixed_output busy_db = (Return tt, db')
       /\ InputHalf memory ∅ first
       /\ calls db'
          = calls busy_db ++ first
            ++ [(history memory, AddMessage (AIMessage (Str "[...]")))]
       /\ log db' (history memory)
          = log busy_db (history memory) ++ appended (history memory) first
            ++ [AIMessage (Str "[...]")].
Proof.
  assert (Hx : Str "done" ∈ [Instance tool_request; Str "done"])
    by (right; left).
  split; [exact Witness.nothing_accepted|]. split; [exact Hx|]. split; [reflexivity|].
  split; [exact mixed_output_present|]. split; [reflexivity|]. split; [reflexivity|].
  exact (mixed_array_is_stringified stringify memory ∅ mixed_output busy_db
           _ _ "[...]" Witness.nothing_accepted Hx eq_refl mixed_output_present
           eq_refl eq_refl).
Defined.

Lemma version_14 : (14 # 10 <= 14 # 10)%Q.
Proof. unfold Qle. simpl. lia. Defined.

Lemma supplied_memory_round_trip_witness :
  exists adapter db',
    MemoryPostgresChat.supplyData (context (14 # 10) true) empty_db
    = (Return (MemoryPostgresChat.ToolAware adapter), empty_db)
    /\ (saveContext stringify adapter {[ "input"%string := Str "Hello" ]}
                    {[ "output"%string := Str "Hi there" ]} ;;
        loadMemoryVariables adapter ∅) empty_db
       = (Return {[ "chat_history"%string :=
                      Array [Instance (HumanMessage (Str "Hello"));
                             Instance (AIMessage (Str "Hi there"))] ]}, db').
Proof.
  apply (supplied_memory_round_trip stringify (context (14 # 10) true) empty_db
           "Hello" "Hi there" version_14 eq_refl);
    [discriminate | discriminate | reflexivity | reflexivity].
Defined.

Lemma sessions_are_isolated_and_shared_witness :
  (exists writer reader o db1,
     MemoryPostgresChat.supplyData (context_of (14 # 10) true "session-1" 5) busy_db
     = (Return (MemoryPostgresChat.ToolAware writer), busy_db)
     /\ MemoryPostgresChat.supplyData (context_of (14 # 10) true "session-2" 5) busy_db
        = (Return (MemoryPostgresChat.ToolAware reader), busy_db)
     /\ saveContext stringify writer hello hi_there busy_db = (o, db1)
     /\ log db1 (history reader) = log busy_db (history reader))
  /\ (exists writer reader o db1 new,
        MemoryPostgresChat.supplyData (context_of (14 # 10) true "session-1" 5) busy_db
        = (Return (MemoryPostgresChat.ToolAware writer), busy_db)
        /\ MemoryPostgresChat.supplyData (context_of (14 # 10) true "session-1" 10)
             busy_db
           = (Return (MemoryPostgresChat.ToolAware reader), busy_db)
        /\ saveContext stringify writer hello hi_there busy_db = (o, db1)
        /\ calls db1 = calls busy_db ++ new
        /\ log db1 (history reader)
           = log busy_db (history reader) ++ appended (history writer) new).
Proof.
  split.
  - destruct (sessions_are_isolated_and_shared stringify
                (context_of (14 # 10) true "session-1" 5)
                (context_of (14 # 10) true "session-2" 5)
                hello hi_there busy_db version_14 eq_refl version_14 eq_refl eq_refl)
      as (writer & reader & o & db1 & db2 & new & Hw & Hr & Hrun & _ & _ & Hiso & _).
    exists writer, reader, o, db1. split; [exact Hw|]. split; [exact Hr|].
    split; [exact Hrun|]. apply Hiso. discriminate.
  - destruct (sessions_are_isolated_and_shared stringify
                (context_of (14 # 10) true "session-1" 5)
                (context_of (14 # 10) true "session-1" 10)
                hello hi_there busy_db version_14 eq_refl version_14 eq_refl eq_refl)
      as (writer & reader & o & db1 & db2 & new & Hw & Hr & Hrun & Hcalls & _ & _ & Hsh).
    exists writer, reader, o, db1, new. split; [exact Hw|]. split; [exact Hr|].
    split; [exact Hrun|]. split; [exact Hcalls|]. apply Hsh; reflexivity.
Defined.

Lemma clear_then_save_witness :
  faults busy_db = []
  /\ exists o db' db'' new,
       (clear memory ;; saveContext stringify memory forty_two hi_there) busy_db
       = (o, db')
       /\ calls db' = calls busy_db ++ (history memory, Clear) :: new
       /\ loadMemoryVariables memory ∅ db'
          = (Return {[ memoryKey memory :=
                         Array (Instance <$> appended (history memory) new) ]}, db'')
       /\ forall h', h' <> history memory -> log db' h' = log busy_db h'.
Proof.
  split; [reflexivity|].
  exact (clear_then_save stringify memory forty_two hi_there ∅ busy_db eq_refl).
Defined.

Lemma tool_flag_displayed_iff_effective_witness :
  Description.displayed Description.supportToolCalls (13 # 10) = false
  /\ MemoryPostgresChat.supplyData (context_of (13 # 10) true "session-1" 5) empty_db
     = MemoryPostgresChat.supplyData (context_of (13 # 10) false "session-1" 5) empty_db
  /\ Description.displayed Description.supportToolCalls (14 # 10) = true
  /\ MemoryPostgresChat.supplyData (context_of (14 # 10) true "session-1" 5) empty_db
     <> MemoryPostgresChat.supplyData (context_of (14 # 10) false "session-1" 5) empty_db.
Proof.
  split; [reflexivity|]. split; [reflexivity|]. split; [reflexivity|].
  apply (tool_flag_displayed_iff_effective
           (context_of (14 # 10) true "session-1" 5)
           (context_of (14 # 10) false "session-1" 5) empty_db
           eq_refl eq_refl eq_refl eq_refl eq_refl eq_refl).
  reflexivity.
Defined.

Lemma window_length_effective_when_windowed_witness :
  MemoryPostgresChat.supplyData (context_of (12 # 10) false "session-1" 5) empty_db
  <> MemoryPostgresChat.supplyData (context_of (12 # 10) false "session-1" 10) empty_db
  /\ ~ (MemoryPostgresChat.supplyData (context_of (14 # 10) true "session-1" 5) empty_db
        <> MemoryPostgresChat.supplyData (context_of (14 # 10) true "session-1" 10)
             empty_db).
Proof.
  split.
  - apply (window_length_effective_when_windowed
             (context_of (12 # 10) false "session-1" 5)
             (context_of (12 # 10) false "session-1" 10) empty_db
             eq_refl eq_refl eq_refl eq_refl ltac:(discriminate)).
    split; [reflexivity|]. intros [_ H]. discriminate H.
  - intros Hne.
    apply (window_length_effective_when_windowed
             (context_of (14 # 10) true "session-1" 5)
             (context_of (14 # 10) true "session-1" 10) empty_db
             eq_refl eq_refl eq_refl eq_refl ltac:(discriminate)) in Hne.
    destruct Hne as [_ Hn]. apply Hn. split; [exact version_14 | reflexivity].
Defined.

Lemma sequence_output_present :
  Present (outputKey memory) sequence_output
    (Array (Instance <$> [tool_request; tool_result; tool_result])).
Proof. present_at "output". Defined.

Lemma sequence_round_trip_witness :
  InputAccepted memory hello
  /\ Present (outputKey memory) sequence_output
       (Array (Instance <$> [tool_request; tool_result; tool_result]))
  /\ faults busy_db = []
  /\ exists db' db'' first,
       saveContext stringify memory hello sequence_output busy_db = (Return tt, db')
       /\ InputHalf memory hello first
       /\ calls db'
          = calls busy_db ++ first
            ++ [(history memory, AddMessages [tool_request; tool_result; tool_result])]
       /\ loadMemoryVariables memory ∅ db'
          = (Return {[ memoryKey memory :=
                         Array (Instance <$>
                                  (log busy_db (history memory)
                                   ++ appended (history memory) first
                                   ++ [tool_request; tool_result; tool_result])) ]},
             db'')
       /\ length (log db' (history memory))
          = (length (log busy_db (history memory)) + length first + 3)%nat.
Proof.
  split; [exact Witness.hello_accepted|]. split; [exact sequence_output_present|].
  split; [reflexivity|].
  exact (sequence_round_trip stringify memory hello sequence_output ∅ busy_db
           [tool_request; tool_result; tool_result] Witness.hello_accepted
           sequence_output_present eq_refl).
Defined.

Lemma forty_two_present : Present (inputKey memory) forty_two (Num 42%float).
Proof. present_at "input". Defined.

Lemma refused_input_stops_saveContext_witness :
  Present (inputKey memory) forty_two (Num 42%float)
  /\ saveContext stringify memory forty_two hi_there busy_db
     = (Throw TypeError, busy_db).
Proof.
  split; [exact forty_two_present|].
  apply (refused_input_stops_saveContext stringify memory forty_two hi_there busy_db
           (Num 42%float) forty_two_present).
  left. exists 42%float. reflexivity.
Defined.

Lemma inherited_method_present :
  Present (outputKey inherited_key) ∅ (Function "toString").
Proof. present_at "toString". Defined.

Lemma function_is_other name : is_other (Function name).
Proof.
  split; [intros [s [=]]|]. split; [intros (m & [=] & _) | intros [ms [=]]].
Defined.

Lemma hello_accepted_inherited : InputAccepted inherited_key hello.
Proof.
  apply (input_accepted_of inherited_key hello (Str "Hello"));
    [present_at "input" | reflexivity].
Defined.

Lemma output_without_text_throws_witness :
  InputAccepted inherited_key hello
  /\ Present (outputKey inherited_key) ∅ (Function "toString")
  /\ is_other (Function "toString")
  /\ faults busy_db = []
  /\ stringify (Function "toString") = JSON.NoText
  /\ exists db' first,
       saveContext stringify inherited_key hello ∅ busy_db = (Throw TypeError, db')
       /\ InputHalf inherited_key hello first
       /\ calls db' = calls busy_db ++ first
       /\ log db' (history inherited_key)
          = log busy_db (history inherited_key)
            ++ appended (history inherited_key) first.
Proof.
  split; [exact hello_accepted_inherited|]. split; [exact inherited_method_present|].
  split; [exact (function_is_other "toString")|]. split; [reflexivity|].
  split; [reflexivity|].
  apply (output_without_text_throws stringify inherited_key hello ∅ busy_db
           (Function "toString") hello_accepted_inherited inherited_method_present
           (function_is_other "toString") eq_refl TypeError).
  left. split; reflexivity.
Defined.

End Concrete.
